(** * react-emage: the Image component (src/index.tsx)

    A shallow embedding of the source resolver ([resolveAssetUri],
    [resolveAssetDimensions]), of the presentation helpers
    ([shouldDisplaySource], [getBackgroundSize]) and of the load effect of
    the [Image] component, followed by the properties checked against the
    specification.

    Conventions.
    - A JavaScript string is represented by the bytes of its UTF-8 encoding
      (a Rocq [string]).  Strings holding an unpaired surrogate have no
      representation here.
    - A JavaScript number is an element of a type carrying the operations
      the component uses ([JsNumber]); the ordering facts the scale
      selection relies on are a separate class ([JsNumberOrder]).  Exact
      rationals give an instance on which every definition evaluates.
    - A function that may throw returns a [Completion]. *)

From Stdlib Require Import List String Ascii Bool Arith NArith ZArith Lia.
From Stdlib Require Import QArith Qabs Qround Qminmax DecimalString.
Import ListNotations.

Local Open Scope string_scope.
Local Open Scope nat_scope.

(** ** JavaScript values *)

Inductive JsError : Type :=
| GenericError (message : string)   (* new Error(message) *)
| TypeError                         (* raised by the engine *)
.

Inductive Completion (A : Type) : Type :=
| Return (a : A)
| Throw (e : JsError).
Arguments Return {A} a.
Arguments Throw {A} e.

Definition bindC {A B} (c : Completion A) (k : A -> Completion B) : Completion B :=
  match c with
  | Return a => k a
  | Throw e => Throw e
  end.

Notation "x <- c ;; k" := (bindC c (fun x => k))
  (at level 61, c at next level, right associativity).

(** The operations on numbers the component relies on. *)
Class JsNumber (num : Type) : Type := {
  num_one : num;
  num_eqb : num -> num -> bool;      (* a === b *)
  num_ltb : num -> num -> bool;      (* a < b *)
  num_truthy : num -> bool;          (* ToBoolean: false on 0 and NaN *)
  num_sub : num -> num -> num;
  num_mul : num -> num -> num;
  num_div : num -> num -> num;
  num_abs : num -> num;              (* Math.abs *)
  num_min3 : num -> num -> num -> num; (* Math.min(a, b, c) *)
  num_ceil : num -> num;             (* Math.ceil *)
  num_toString : num -> string       (* template-literal conversion *)
}.

(** [<] is a strict weak order on the numbers at hand (true of every
    number but NaN). *)
Class JsNumberOrder (num : Type) `{JsNumber num} : Prop := {
  num_ltb_irrefl : forall a, num_ltb a a = false;
  num_ltb_trans : forall a b c,
      num_ltb a b = true -> num_ltb b c = true -> num_ltb a c = true;
  num_ltb_negtrans : forall a b c,
      num_ltb a b = false -> num_ltb b c = false -> num_ltb a c = false
}.

(** ** Data model (types.ts) *)

Section DataModel.
Context {num : Type}.

(** The fields of [SourceObject] the component reads. *)
Record SourceObject : Type := {
  uri : string;
  height : option num;
  width : option num
}.

(** [source?: Source], with the two absent values kept apart. *)
Inductive Source : Type :=
| SrcUndefined
| SrcNull
| SrcNumber (handle : num)
| SrcString (s : string)
| SrcObject (o : SourceObject)
| SrcArray (l : list SourceObject).

(** What [getAssetByID] hands back (AssetRegistry): the fields read. *)
Record Asset : Type := {
  httpServerLocation : string;
  name : string;
  type : string;
  scales : list num;
  asset_height : num;
  asset_width : num
}.

Inductive ResizeMode : Type :=
| center | contain | cover | none | repeat | stretch.

Inductive LoadState : Type := ERRORED | LOADED | LOADING | IDLE.
End DataModel.
Arguments SourceObject : clear implicits.
Arguments Source : clear implicits.
Arguments Asset : clear implicits.

(** ** Strings: the SVG data-URI pattern and [encodeURIComponent] *)

(** The double-quote character, as a string. *)
Definition dquote : string := String (ascii_of_nat 34) EmptyString.

Definition svgPrefix : string := "data:image/svg+xml;utf8,".

Definition byte_is (c : ascii) (n : N) : bool := N.eqb (N_of_ascii c) n.

(** Does [s] start with a LineTerminator (LF, CR, U+2028, U+2029)?  The
    last two are E2 80 A8 and E2 80 A9 in UTF-8. *)
Definition startsWithLineTerminator (s : string) : bool :=
  match s with
  | String c r =>
      byte_is c 10 || byte_is c 13 ||
      (byte_is c 226 &&
       match r with
       | String c1 (String c2 _) =>
           byte_is c1 128 && (byte_is c2 168 || byte_is c2 169)
       | _ => false
       end)
  | EmptyString => false
  end.

(** The greedy second group: everything up to the first line terminator. *)
Fixpoint dotStar (s : string) : string :=
  match s with
  | EmptyString => EmptyString
  | String c r =>
      if startsWithLineTerminator s then EmptyString else String c (dotStar r)
  end.


Fixpoint stripPrefix (p s : string) : option string :=
  match p with
  | EmptyString => Some s
  | String a p' =>
      match s with
      | String b s' => if Ascii.eqb a b then stripPrefix p' s' else None
      | EmptyString => None
      end
  end.

(** [uri.match(svgDataUriPattern)]: the pattern is anchored at the start
    of the string, its first group is the literal prefix and its second
    group is a greedy run of any characters but line terminators.  The
    result holds the two captured groups. *)
Definition matchSvgDataUri (u : string) : option (string * string) :=
  match stripPrefix svgPrefix u with
  | Some rest => Some (svgPrefix, dotStar rest)
  | None => None
  end.

(** uriUnreserved of ECMA-262: letters, digits and the nine marks
    hyphen, underscore, dot, exclamation mark, tilde, star, apostrophe and
    the two parentheses. *)
Definition uriUnreserved (c : ascii) : bool :=
  let n := N_of_ascii c in
  ((65 <=? n) && (n <=? 90) || (97 <=? n) && (n <=? 122) ||
   (48 <=? n) && (n <=? 57) ||
   existsb (N.eqb n) [45; 95; 46; 33; 126; 42; 39; 40; 41])%N.

Definition hexDigit (n : N) : ascii :=
  if (n <? 10)%N then ascii_of_N (48 + n) else ascii_of_N (55 + n).

Definition percentByte (c : ascii) : string :=
  let n := N_of_ascii c in
  String "%"%char
    (String (hexDigit (n / 16)) (String (hexDigit (n mod 16)) EmptyString)).

(** [encodeURIComponent] on a well-formed string: every UTF-8 byte outside
    uriUnreserved becomes [%XX] with upper-case digits. *)
Fixpoint encodeURIComponent (s : string) : string :=
  match s with
  | EmptyString => EmptyString
  | String c r =>
      if uriUnreserved c then String c (encodeURIComponent r)
      else percentByte c ++ encodeURIComponent r
  end.

(** The tail of [resolveAssetUri]: a non-empty URI matching the pattern
    has its second group encoded behind the prefix; any other value is
    returned as it is. *)
Definition escapeSvgDataUri (u : option string) : option string :=
  match u with
  | Some (String _ _ as s) =>
      match matchSvgDataUri s with
      | Some (prefix, svg) => Some (prefix ++ encodeURIComponent svg)
      | None => Some s
      end
  | _ => u
  end.

(** ** Source resolver *)

Section Resolver.
Context {num : Type} `{JsNumber num}.

(** AssetRegistry: [None] is a [null] result. *)
Variable getAssetByID : num -> option (Asset num).
(** [window.devicePixelRatio]; [None] when the property is undefined. *)
Variable devicePixelRatio : option num.

(** [window.devicePixelRatio || 1] *)
Definition preferredScale : num :=
  match devicePixelRatio with
  | Some r => if num_truthy r then r else num_one
  | None => num_one
  end.

Definition distance (candidate : num) : num :=
  num_abs (num_sub candidate preferredScale).

(** [closer a b]: [a] is strictly nearer to the preferred scale than [b]. *)
Definition closer (a b : num) : bool :=
  num_ltb (distance a) (distance b).

(** The callback given to [reduce]. *)
Definition closest (prev curr : num) : num :=
  if closer curr prev then curr else prev.

(** [Array.prototype.reduce] without an initial value. *)
Definition reduce {A} (f : A -> A -> A) (l : list A) : Completion A :=
  match l with
  | [] => Throw TypeError
  | x :: rest => Return (fold_left f rest x)
  end.

(** The scale picked for an asset; [None] is [undefined] (empty list). *)
Definition selectScale (a : Asset num) : Completion (option num) :=
  let scale := hd_error (scales a) in
  if 1 <? List.length (scales a) then
    s <- reduce closest (scales a) ;; Return (Some s)
  else Return scale.

Definition scaleSuffix (scale : option num) : string :=
  match scale with
  | Some s =>
      if num_eqb s num_one then EmptyString else "@" ++ num_toString s ++ "x"
  | None => "@undefinedx"
  end.

Definition assetUri (a : Asset num) (scale : option num) : string :=
  httpServerLocation a ++ "/" ++ name a ++ scaleSuffix scale ++ "." ++ type a.

Definition assetNotFoundMessage (handle : num) : string :=
  "Image: asset with ID " ++ dquote ++ num_toString handle ++ dquote ++
  " could not be found. Please check the image source or packager.".

Definition resolveAssetUri (source : Source num) : Completion (option string) :=
  u <- match source with
       | SrcString s => Return (Some s)
       | SrcNumber handle =>
           (* get the URI from the packager *)
           match getAssetByID handle with
           | None => Throw (GenericError (assetNotFoundMessage handle))
           | Some asset =>
               scale <- selectScale asset ;;
               Return (Some (assetUri asset scale))
           end
       | SrcArray l =>
           match l with
           | first :: _ => Return (Some (uri first))
           | [] => Throw TypeError   (* source[0] is undefined *)
           end
       | SrcObject o => Return (Some (uri o))
       | SrcUndefined | SrcNull => Return None
       end ;;
  Return (escapeSvgDataUri u).

Record Dimensions : Type := {
  dim_height : option num;
  dim_width : option num
}.

(** [None] is the [undefined] of a call that falls off the end. *)
Definition resolveAssetDimensions (source : Source num)
  : Completion (option Dimensions) :=
  match source with
  | SrcNumber handle =>
      match getAssetByID handle with
      | Some asset =>
          Return (Some {| dim_height := Some (asset_height asset);
                          dim_width := Some (asset_width asset) |})
      | None => Throw TypeError   (* destructuring null *)
      end
  | SrcObject o =>
      Return (Some {| dim_height := height o; dim_width := width o |})
  | _ => Return None
  end.
End Resolver.

(** ** Presentation helpers *)

Definition LoadState_eqb (a b : LoadState) : bool :=
  match a, b with
  | ERRORED, ERRORED | LOADED, LOADED | LOADING, LOADING | IDLE, IDLE => true
  | _, _ => false
  end.

Section Presentation.
Context {num : Type} `{JsNumber num}.

(** [defaultSource === null] *)
Definition isNull (s : Source num) : bool :=
  match s with
  | SrcNull => true
  | _ => false
  end.

Definition shouldDisplaySource (state : LoadState) (defaultSource : Source num)
  : bool :=
  LoadState_eqb state LOADED ||
  (LoadState_eqb state LOADING && isNull defaultSource).

(** [propResizeMode || _resizeMode || 'cover'] *)
Definition resolveResizeMode (propResizeMode styleResizeMode : option ResizeMode)
  : ResizeMode :=
  match propResizeMode with
  | Some m => m
  | None => match styleResizeMode with
            | Some m => m
            | None => cover
            end
  end.

(** The two properties read from the hidden [img] element. *)
Record HiddenImage : Type := {
  naturalHeight : num;
  naturalWidth : num
}.

Record Layout : Type := {
  layout_height : num;
  layout_width : num
}.

Definition centerOrRepeat (m : ResizeMode) : bool :=
  match m with
  | center | repeat => true
  | _ => false
  end.

Definition scaleFactor (img : HiddenImage) (layout : Layout) : num :=
  num_min3 num_one
    (num_div (layout_width layout) (naturalWidth img))
    (num_div (layout_height layout) (naturalHeight img)).

(** [None] is [undefined]: no override of the background size. *)
Definition getBackgroundSize (hiddenImageRef : option HiddenImage)
  (resizeMode : ResizeMode) (layout : Layout) : option string :=
  match hiddenImageRef with
  | Some img =>
      if centerOrRepeat resizeMode then
        if num_truthy (naturalHeight img) && num_truthy (naturalWidth img) &&
           num_truthy (layout_height layout) && num_truthy (layout_width layout)
        then
          let x := num_ceil (num_mul (scaleFactor img layout) (naturalWidth img)) in
          let y := num_ceil (num_mul (scaleFactor img layout) (naturalHeight img)) in
          Some (num_toString x ++ "px " ++ num_toString y ++ "px")
        else None
      else None
  | None => None
  end.
End Presentation.
Arguments HiddenImage : clear implicits.
Arguments Layout : clear implicits.
Arguments Dimensions : clear implicits.

(** ** Exact rationals as numbers *)

Module QNum.

Definition digitsOfZ (z : Z) : string := NilZero.string_of_int (Z.to_int z).

(** Digits after the decimal point of [r / den], at most [fuel] of them. *)
Fixpoint fraction (fuel : nat) (r den : Z) : string :=
  match fuel with
  | O => EmptyString
  | S fuel' =>
      if (r =? 0)%Z then EmptyString
      else digitsOfZ (r * 10 / den) ++ fraction fuel' ((r * 10) mod den) den
  end.

(** Decimal rendering: the integer part, then the expansion of the rest. *)
Definition toString (q : Q) : string :=
  let n := Qnum q in
  let d := Zpos (Qden q) in
  let a := Z.abs n in
  let sign := if (n <? 0)%Z then "-" else EmptyString in
  let whole := digitsOfZ (a / d) in
  if (a mod d =? 0)%Z then sign ++ whole
  else sign ++ whole ++ "." ++ fraction 20 (a mod d) d.

Definition ltb (a b : Q) : bool := negb (Qle_bool b a).

#[global] Instance Q_JsNumber : JsNumber Q := {|
  num_one := 1%Q;
  num_eqb := Qeq_bool;
  num_ltb := ltb;
  num_truthy := fun q => negb (Qeq_bool q 0);
  num_sub := Qminus;
  num_mul := Qmult;
  num_div := Qdiv;
  num_abs := Qabs;
  num_min3 := fun a b c => Qmin a (Qmin b c);
  num_ceil := fun q => inject_Z (Qceiling q);
  num_toString := toString
|}.

End QNum.

(** ** The Image component: load state and the load effect *)

(** [requestRef.current] holds a [number | null]. *)
Definition RequestHandle : Type := nat.

(** The payload the loader passes to its callbacks. *)
Definition LoaderEvent : Type := nat.

(** The optional callback props.  [None]: the prop is not passed; the
    number stands for the identity of the function, which is what the
    dependency list of the effect compares. *)
Record Callbacks : Type := {
  onError : option nat;
  onLoad : option nat;
  onLoadEnd : option nat;
  onLoadStart : option nat
}.

(** What the component does to the outside, in order. *)
Inductive Event : Type :=
| CallAbort (handle : RequestHandle)                (* ImageLoader.abort *)
| CallLoad (u : string) (handle : RequestHandle)    (* ImageLoader.load *)
| CallOnLoadStart
| CallOnLoad (e : LoaderEvent)
| CallOnLoadEnd (e : LoaderEvent)
| CallOnError (message : string).

Record Instance : Type := {
  state : LoadState;
  requestRef : option RequestHandle
}.

(** [cb?.(...)] *)
Definition optionalCall (cb : option nat) (ev : Event) : list Event :=
  match cb with
  | Some _ => [ev]
  | None => []
  end.

Definition abortPendingRequest (i : Instance) : Instance * list Event :=
  match requestRef i with
  | Some h => ({| state := state i; requestRef := None |}, [CallAbort h])
  | None => (i, [])
  end.

Definition failureMessage (u : string) : string :=
  "Failed to load resource " ++ u ++ " (404)".

(** The [load] callback handed to the loader. *)
Definition onLoaderSuccess (cbs : Callbacks) (e : LoaderEvent) (i : Instance)
  : Instance * list Event :=
  ({| state := LOADED; requestRef := requestRef i |},
   (optionalCall (onLoad cbs) (CallOnLoad e) ++
    optionalCall (onLoadEnd cbs) (CallOnLoadEnd e))%list).

(** The [error] callback handed to the loader. *)
Definition onLoaderError (u : string) (cbs : Callbacks) (e : LoaderEvent)
  (i : Instance) : Instance * list Event :=
  ({| state := ERRORED; requestRef := requestRef i |},
   (optionalCall (onError cbs) (CallOnError (failureMessage u)) ++
    optionalCall (onLoadEnd cbs) (CallOnLoadEnd e))%list).

(** The body of the load effect; [handle] is what [ImageLoader.load]
    returns when it is called. *)
Definition loadEffect (u : option string) (cbs : Callbacks)
  (handle : RequestHandle) (i : Instance) : Instance * list Event :=
  let (i1, t1) := abortPendingRequest i in
  match u with
  | Some u' =>
      ({| state := LOADING; requestRef := Some handle |},
       (t1 ++ optionalCall (onLoadStart cbs) CallOnLoadStart ++
        [CallLoad u' handle])%list)
  | None => (i1, t1)
  end.

(** *** The component in its environment *)

(** Modelled from the spec: the ImageLoader collaborator, whose source is
    not at hand.  A request is remembered with the URI and the callbacks of
    the effect run that issued it; the loader settles it at most once and
    forgets it when it is aborted. *)
Record Pending : Type := {
  pending_handle : RequestHandle;
  pending_uri : string;
  pending_callbacks : Callbacks
}.

Definition loaderAbort (t : list Event) (p : option Pending) : option Pending :=
  fold_left
    (fun p ev =>
       match ev, p with
       | CallAbort h, Some r =>
           if Nat.eqb h (pending_handle r) then None else p
       | _, _ => p
       end) t p.

(** A mounted component: its own state, the dependency values of the last
    effect run (the resolved URI and the callbacks) and the loader's
    pending request. *)
Record World : Type := {
  mounted : bool;
  inst : Instance;
  deps : option string * Callbacks;
  pending : option Pending
}.

Definition option_eqb {A} (eqb : A -> A -> bool) (a b : option A) : bool :=
  match a, b with
  | Some x, Some y => eqb x y
  | None, None => true
  | _, _ => false
  end.

Definition Callbacks_eqb (a b : Callbacks) : bool :=
  option_eqb Nat.eqb (onError a) (onError b) &&
  option_eqb Nat.eqb (onLoad a) (onLoad b) &&
  option_eqb Nat.eqb (onLoadEnd a) (onLoadEnd b) &&
  option_eqb Nat.eqb (onLoadStart a) (onLoadStart b).

(** The comparison of two dependency lists. *)
Definition deps_eqb (a b : option string * Callbacks) : bool :=
  option_eqb String.eqb (fst a) (fst b) && Callbacks_eqb (snd a) (snd b).

Definition newPending (u : option string) (cbs : Callbacks)
  (handle : RequestHandle) (old : option Pending) : option Pending :=
  match u with
  | Some u' => Some {| pending_handle := handle; pending_uri := u';
                       pending_callbacks := cbs |}
  | None => old
  end.

Inductive Action : Type :=
| Render (u : option string) (cbs : Callbacks) (handle : RequestHandle)
| LoaderSuccess (e : LoaderEvent)
| LoaderFailure (e : LoaderEvent)
| Unmount.

(** One step of the life of a mounted component.  A render whose
    dependencies changed runs the cleanup of the previous effect, then the
    effect; unmounting runs the cleanup. *)
Definition step (w : World) (a : Action) : World * list Event :=
  if negb (mounted w) then (w, [])
  else
    match a with
    | Render u cbs handle =>
        if deps_eqb (deps w) (u, cbs) then (w, [])
        else
          let (i1, t1) := abortPendingRequest (inst w) in
          let (i2, t2) := loadEffect u cbs handle i1 in
          ({| mounted := true; inst := i2; deps := (u, cbs);
              pending := newPending u cbs handle
                           (loaderAbort (t1 ++ t2) (pending w)) |},
           (t1 ++ t2)%list)
    | LoaderSuccess e =>
        match pending w with
        | Some r =>
            let (i1, t) := onLoaderSuccess (pending_callbacks r) e (inst w) in
            ({| mounted := true; inst := i1; deps := deps w; pending := None |}, t)
        | None => (w, [])
        end
    | LoaderFailure e =>
        match pending w with
        | Some r =>
            let (i1, t) :=
              onLoaderError (pending_uri r) (pending_callbacks r) e (inst w) in
            ({| mounted := true; inst := i1; deps := deps w; pending := None |}, t)
        | None => (w, [])
        end
    | Unmount =>
        let (i1, t) := abortPendingRequest (inst w) in
        ({| mounted := false; inst := i1; deps := deps w;
            pending := loaderAbort t (pending w) |}, t)
    end.

Fixpoint run (w : World) (actions : list Action) : World * list Event :=
  match actions with
  | [] => (w, [])
  | a :: rest =>
      let (w1, t1) := step w a in
      let (w2, t2) := run w1 rest in
      (w2, (t1 ++ t2)%list)
  end.

(** The handles loaded and not aborted since, after the calls of [t] made
    from a situation where [cur] were so. *)
Definition liveAfter (cur : list RequestHandle) (ev : Event)
  : list RequestHandle :=
  match ev with
  | CallLoad _ h => (cur ++ [h])%list
  | CallAbort h => filter (fun x => negb (Nat.eqb x h)) cur
  | _ => cur
  end.

Definition live (t : list Event) : list RequestHandle :=
  fold_left liveAfter t [].

(** The content of a [number | null] reference as a list. *)
Definition handleList (r : option RequestHandle) : list RequestHandle :=
  match r with
  | Some h => [h]
  | None => []
  end.

(** [oneAtATime cur t]: along the calls of [t], made when the handles
    [cur] are live, a load is issued only when nothing is live and at most
    one handle is live after every call. *)
Fixpoint oneAtATime (cur : list RequestHandle) (t : list Event) : Prop :=
  match t with
  | [] => True
  | ev :: rest =>
      match ev with
      | CallLoad _ _ => cur = []
      | _ => True
      end /\
      List.length (liveAfter cur ev) <= 1 /\
      oneAtATime (liveAfter cur ev) rest
  end.

(** What the loader still has to settle is the request of [requestRef],
    and it was loaded with the URI remembered for it. *)
Definition pendingIsCurrent (w : World) (t : list Event) : Prop :=
  forall r, pending w = Some r ->
    mounted w = true /\
    requestRef (inst w) = Some (pending_handle r) /\
    In (CallLoad (pending_uri r) (pending_handle r)) t.

Definition isLoadStart (ev : Event) : bool :=
  match ev with
  | CallOnLoadStart => true
  | _ => false
  end.

Definition isLoadEnd (ev : Event) : bool :=
  match ev with
  | CallOnLoadEnd _ => true
  | _ => false
  end.

Definition isOnLoad (ev : Event) : bool :=
  match ev with
  | CallOnLoad _ => true
  | _ => false
  end.

Definition isOnError (ev : Event) : bool :=
  match ev with
  | CallOnError _ => true
  | _ => false
  end.

(** How many calls of [t] satisfy [p]. *)
Definition count (p : Event -> bool) (t : list Event) : nat :=
  List.length (filter p t).

Section Component.
Context {num : Type} `{JsNumber num}.
Variable getAssetByID : num -> option (Asset num).
Variable devicePixelRatio : option num.
(** [ImageLoader.has], as it answers when the component mounts. *)
Variable has : string -> bool.

(** The initializer given to [useState]. *)
Definition initialState (source : Source num) : Completion LoadState :=
  u <- resolveAssetUri getAssetByID devicePixelRatio source ;;
  Return match u with
         | Some u' => if has u' then LOADED else IDLE
         | None => IDLE
         end.

(** Mounting: the first render, then the first run of the load effect. *)
Definition mount (source : Source num) (cbs : Callbacks)
  (handle : RequestHandle) : Completion (World * list Event) :=
  s0 <- initialState source ;;
  u <- resolveAssetUri getAssetByID devicePixelRatio source ;;
  let (i, t) := loadEffect u cbs handle {| state := s0; requestRef := None |} in
  Return ({| mounted := true; inst := i; deps := (u, cbs);
             pending := newPending u cbs handle None |}, t).
End Component.

(** ** Percent-decoding *)

(** Modelled from the spec: the decoding the round trip of an inline SVG is
    stated with.  It is the inverse reading of [%XX] escapes over bytes; no
    function of the component performs it. *)
Definition hexValue (c : ascii) : option N :=
  let n := N_of_ascii c in
  if ((48 <=? n) && (n <=? 57))%N then Some (n - 48)%N
  else if ((65 <=? n) && (n <=? 70))%N then Some (n - 55)%N
  else if ((97 <=? n) && (n <=? 102))%N then Some (n - 87)%N
  else None.

Fixpoint percentDecode (s : string) : option string :=
  match s with
  | EmptyString => Some EmptyString
  | String c r =>
      if byte_is c 37 then
        match r with
        | String h (String l r') =>
            match hexValue h, hexValue l, percentDecode r' with
            | Some a, Some b, Some d => Some (String (ascii_of_N (16 * a + b)) d)
            | _, _, _ => None
            end
        | _ => None
        end
      else
        match percentDecode r with
        | Some d => Some (String c d)
        | None => None
        end
  end.

(** ** Sample inputs *)

Module Sample.
Import QNum.

Definition logo : Asset Q := {|
  httpServerLocation := "/assets";
  name := "logo";
  type := "png";
  scales := [1%Q; 2%Q; 3%Q];
  asset_height := 10%Q;
  asset_width := 20%Q
|}.

(** A registry holding [logo] under the handle 1 and nothing else. *)
Definition registry (handle : Q) : option (Asset Q) :=
  if Qeq_bool handle 1 then Some logo else None.

Definition lineFeed : string := String (ascii_of_nat 10) EmptyString.

(** An inline SVG written on two lines. *)
Definition twoLineSvg : string :=
  "<svg xmlns=" ++ dquote ++ "#" ++ dquote ++ ">" ++ lineFeed ++ "</svg>".

Definition allCallbacks : Callbacks := {|
  onError := Some 0; onLoad := Some 1; onLoadEnd := Some 2; onLoadStart := Some 3
|}.

Definition cached (u : string) : bool := true.
(** A change of URI, a failure of the new request, then the unmount. *)
Definition actions : list Action :=
  [Render (Some "b.png") allCallbacks 1; LoaderFailure 0; Unmount].



Definition picture : HiddenImage Q :=
  {| naturalHeight := 200%Q; naturalWidth := 400%Q |}.

Definition box : Layout Q :=
  {| layout_height := 100%Q; layout_width := 100%Q |}.
End Sample.

(** ** warnOnce (warnOnce.ts) *)

(** The module-level [warnedKeys] object, as the keys set on it, and what
    [console.warn] has printed so far. *)
Record WarnState : Type := {
  warnedKeys : list string;
  consoleWarnings : list string
}.

Definition noWarnings : WarnState :=
  {| warnedKeys := []; consoleWarnings := [] |}.

Section WarnOnce.
(** [process.env.NODE_ENV === 'production'] *)
Variable production : bool.
(** The keys a property read answers a truthy value for on an object that
    has no property of its own (what the prototype supplies). *)
Variable prototypeHas : string -> bool.

(** [warnedKeys[key]], as a condition. *)
Definition isWarned (key : string) (st : WarnState) : bool :=
  existsb (String.eqb key) (warnedKeys st) || prototypeHas key.

Definition warnOnce (key message : string) (st : WarnState) : WarnState :=
  if negb production then
    if isWarned key st then st
    else {| warnedKeys := key :: warnedKeys st;
            consoleWarnings := (consoleWarnings st ++ [message])%list |}
  else st.

(** A sequence of calls, each a key and a message. *)
Definition warnAll (calls : list (string * string)) (st : WarnState) : WarnState :=
  fold_left (fun s call => warnOnce (fst call) (snd call) s) calls st.

(** The calls that are the first of their key and whose key the prototype
    does not answer for, [seen] being the keys met before. *)
Fixpoint firstCalls (seen : list string) (calls : list (string * string))
  : list (string * string) :=
  match calls with
  | [] => []
  | call :: rest =>
      if existsb (String.eqb (fst call)) seen || prototypeHas (fst call)
      then firstCalls seen rest
      else call :: firstCalls (fst call :: seen) rest
  end.
End WarnOnce.

(** ** Non-standard style props and the tint filter *)

(** [ToBoolean] of a [string | null | undefined]: [None] stands for both
    absent values, which the component never tells apart. *)
Definition truthyString (s : option string) : bool :=
  match s with
  | Some (String _ _) => true
  | _ => false
  end.

(** [a || b] on such values, read for its truthiness and its string. *)
Definition orString (a b : option string) : option string :=
  if truthyString a then a else b.

(** [Array.prototype.join] *)
Fixpoint join (sep : string) (l : list string) : string :=
  match l with
  | [] => EmptyString
  | [x] => x
  | x :: rest => x ++ sep ++ join sep rest
  end.

Definition resizeModeWarningKey : string := "Image.style.resizeMode".
Definition resizeModeWarning : string :=
  "Image: style.resizeMode is deprecated. Please use d.".
Definition tintColorWarningKey : string := "Image.style.tintColor".
Definition tintColorWarning : string :=
  "Image: style.tintColor is deprecated. Please use props.tintColor.".

Section StyleProps.
Context {num : Type} `{JsNumber num}.
Variable production : bool.
Variable prototypeHas : string -> bool.

(** The three properties read from the [style] prop. *)
Record Style : Type := {
  style_filter : option string;
  style_resizeMode : option ResizeMode;
  style_tintColor : option string
}.

(** [{}] *)
Definition emptyStyle : Style :=
  {| style_filter := None; style_resizeMode := None; style_tintColor := None |}.

(** [filterId?: number | string | null] *)
Inductive FilterId : Type :=
| FilterNumber (n : num)
| FilterString (s : string)
| FilterNull
| FilterUndefined.

Definition filterIdIsNull (id : FilterId) : bool :=
  match id with
  | FilterNull => true
  | _ => false
  end.

Definition filterIdToString (id : FilterId) : string :=
  match id with
  | FilterNumber n => num_toString n
  | FilterString s => s
  | FilterNull => "null"
  | FilterUndefined => "undefined"
  end.

Definition truthyNumber (n : option num) : bool :=
  match n with
  | Some x => num_truthy x
  | None => false
  end.

Definition blurFilter (blurRadius : option num) : string :=
  "blur(" ++ match blurRadius with
             | Some b => num_toString b
             | None => "undefined"
             end ++ "px)".

Definition tintReference (id : FilterId) : string :=
  "url(#tint-" ++ filterIdToString id ++ ")".

(** The [filters] array once the three pushes are done. *)
Definition filterList (flatStyle : Style) (blurRadius : option num)
  (filterId : FilterId) (tintColorProp : option string) : list string :=
  let filters := [] in
  let filters :=
    match style_filter flatStyle with
    | Some (String _ _ as f) => (filters ++ [f])%list
    | _ => filters
    end in
  let filters :=
    if truthyNumber blurRadius then (filters ++ [blurFilter blurRadius])%list
    else filters in
  let filters :=
    if truthyString (orString tintColorProp (style_tintColor flatStyle)) &&
       negb (filterIdIsNull filterId)
    then (filters ++ [tintReference filterId])%list
    else filters in
  filters.

(** The returned array: [resizeMode], the filter string or null,
    [tintColor]. *)
Record StyleProps : Type := {
  sp_resizeMode : option ResizeMode;
  sp_filter : option string;
  sp_tintColor : option string
}.

Definition extractNonStandardStyleProps (style : option Style)
  (blurRadius : option num) (filterId : FilterId)
  (tintColorProp : option string) (warned : WarnState)
  : StyleProps * WarnState :=
  let flatStyle := match style with
                   | Some s => s
                   | None => emptyStyle
                   end in
  let warned :=
    match style_resizeMode flatStyle with
    | Some _ => warnOnce production prototypeHas
                  resizeModeWarningKey resizeModeWarning warned
    | None => warned
    end in
  let warned :=
    if truthyString (style_tintColor flatStyle)
    then warnOnce production prototypeHas
           tintColorWarningKey tintColorWarning warned
    else warned in
  let filters := filterList flatStyle blurRadius filterId tintColorProp in
  ({| sp_resizeMode := style_resizeMode flatStyle;
      sp_filter := if 0 <? List.length filters then Some (join " " filters)
                   else None;
      sp_tintColor := style_tintColor flatStyle |},
   warned).

(** What [createTintColorSVG] renders: the [id] of the [filter] element and
    the [floodColor] of its [feFlood]; [None] is the null of the other
    branch. *)
Record TintFilter : Type := {
  tint_id : string;
  tint_floodColor : string
}.

Definition createTintColorSVG (tintColor : option string) (id : FilterId)
  : option TintFilter :=
  match tintColor with
  | Some (String _ _ as c) =>
      if negb (filterIdIsNull id)
      then Some {| tint_id := "tint-" ++ filterIdToString id;
                   tint_floodColor := c |}
      else None
  | _ => None
  end.
End StyleProps.
Arguments Style : clear implicits.
Arguments FilterId : clear implicits.
Arguments FilterNull {num}.
Arguments FilterUndefined {num}.
Arguments FilterString {num} s.

(** ** The filter identifier of an instance *)

(** [_filterId++] on a number holding an integer: the value read and the
    value left; at 2^53 adding one rounds back to 2^53. *)
Definition postIncrement (counter : N) : N * N :=
  (counter, if (counter <? 2 ^ 53)%N then (counter + 1)%N else counter).

(** The module-level counter and the [filterRef] of every instance
    rendered so far, by instance. *)
Record FilterIds : Type := {
  nextFilterId : N;
  filterRefs : list (nat * N)
}.

Fixpoint filterRefOf (instance : nat) (refs : list (nat * N)) : option N :=
  match refs with
  | [] => None
  | (i, id) :: rest => if Nat.eqb i instance then Some id else filterRefOf instance rest
  end.

(** One render of [instance]: [React.useRef(_filterId++)] evaluates its
    argument on every render and keeps the value of the first one. *)
Definition renderFilterRef (instance : nat) (st : FilterIds) : FilterIds :=
  let (value, next) := postIncrement (nextFilterId st) in
  {| nextFilterId := next;
     filterRefs := match filterRefOf instance (filterRefs st) with
                   | Some _ => filterRefs st
                   | None => (instance, value) :: filterRefs st
                   end |}.

Definition renderFilterRefs (instances : list nat) (st : FilterIds) : FilterIds :=
  fold_left (fun s i => renderFilterRef i s) instances st.

Definition noFilterIds : FilterIds := {| nextFilterId := 0; filterRefs := [] |}.

(** ** What a render derives from the state and the sources *)

Section Render.
Context {num : Type} `{JsNumber num}.
Variable getAssetByID : num -> option (Asset num).
Variable devicePixelRatio : option num.

Record Rendered : Type := {
  displayImageUri : option string;
  imageSizeStyle : option (Dimensions num);
  backgroundImage : option string;      (* None: undefined *)
  hiddenImage : option string;          (* the src of the img, None: null *)
  effectUri : option string             (* the uri the load effect depends on *)
}.

Definition selectedSource (state : LoadState) (source defaultSource : Source num)
  : Source num :=
  if shouldDisplaySource state defaultSource then source else defaultSource.

Definition renderDerived (state : LoadState) (source defaultSource : Source num)
  : Completion Rendered :=
  let selected := selectedSource state source defaultSource in
  display <- resolveAssetUri getAssetByID devicePixelRatio selected ;;
  size <- resolveAssetDimensions getAssetByID selected ;;
  u <- resolveAssetUri getAssetByID devicePixelRatio source ;;
  Return {| displayImageUri := display;
            imageSizeStyle := size;
            backgroundImage :=
              match display with
              | Some (String _ _ as d) => Some ("url(" ++ dquote ++ d ++ dquote ++ ")")
              | _ => None
              end;
            hiddenImage :=
              match display with
              | Some (String _ _ as d) => Some d
              | _ => None
              end;
            effectUri := u |}.
End Render.
Arguments Rendered : clear implicits.

(** ** Counting calls *)

Definition isLoadOf (h : RequestHandle) (ev : Event) : bool :=
  match ev with
  | CallLoad _ h' => Nat.eqb h' h
  | _ => false
  end.

Definition isAbortOf (h : RequestHandle) (ev : Event) : bool :=
  match ev with
  | CallAbort h' => Nat.eqb h' h
  | _ => false
  end.

Definition isLoad (ev : Event) : bool :=
  match ev with
  | CallLoad _ _ => true
  | _ => false
  end.

Definition holds (r : option RequestHandle) (h : RequestHandle) : nat :=
  match r with
  | Some h' => if Nat.eqb h' h then 1 else 0
  | None => 0
  end.

(** The call [abortPendingRequest] makes for what [requestRef] holds. *)
Definition handleEvents (r : option RequestHandle) : list Event :=
  match r with
  | Some h => [CallAbort h]
  | None => []
  end.

Definition inFlight (p : option Pending) : nat :=
  match p with
  | Some _ => 1
  | None => 0
  end.

(** Loads and aborts balance, handle by handle. *)
Definition balanced (w : World) (t : list Event) : Prop :=
  (forall h, count (isLoadOf h) t =
             count (isAbortOf h) t + holds (requestRef (inst w)) h) /\
  (mounted w = false -> requestRef (inst w) = None).

(** The state says whether anything was ever loaded, and a request the
    loader has yet to settle shows as LOADING. *)
Definition stateTracksLoads (w : World) (t : list Event) : Prop :=
  (state (inst w) = IDLE <-> count isLoad t = 0) /\
  (forall r, pending w = Some r ->
             state (inst w) = LOADING /\ 0 < count isLoad t).

(** No request is settled twice. *)
Definition settledAtMostOnce (w : World) (t : list Event) : Prop :=
  count isLoadEnd t + inFlight (pending w) <= count isLoad t /\
  count isOnLoad t + count isOnError t + inFlight (pending w) <= count isLoad t.

(** ** More sample inputs *)

Module Demo.
Definition deprecatedStyle : Style := {|
  style_filter := Some "sepia(1)";
  style_resizeMode := Some contain;
  style_tintColor := Some "red"
|}.

Definition never (key : string) : bool := false.

Definition otherCallbacks : Callbacks := {|
  onError := Some 0; onLoad := Some 7; onLoadEnd := Some 2; onLoadStart := Some 3
|}.

Definition badge : Asset Q := {|
  httpServerLocation := "/assets";
  name := "badge";
  type := "png";
  scales := [2%Q];
  asset_height := 10%Q;
  asset_width := 10%Q
|}.

Definition badgeRegistry (handle : Q) : option (Asset Q) :=
  if Qeq_bool handle 2 then Some badge else None.

(** A component waiting for [a.png], requested under the handle 0. *)
Definition loading : World := {|
  mounted := true;
  inst := {| state := LOADING; requestRef := Some 0 |};
  deps := (Some "a.png", Sample.allCallbacks);
  pending := Some {| pending_handle := 0; pending_uri := "a.png";
                     pending_callbacks := Sample.allCallbacks |}
|}.

(** A success of the first request, a change of URI, the unmount. *)
Definition actions : list Action :=
  [LoaderSuccess 4; Render (Some "b.png") Sample.allCallbacks 1; Unmount].
End Demo.

(** * Properties *)

(** ** Numbers *)

#[global] Instance Q_JsNumberOrder : JsNumberOrder Q.
Proof.
  split; simpl; unfold QNum.ltb; intros.
  - rewrite negb_false_iff. apply Qle_bool_iff. apply Qle_refl.
  - rewrite negb_true_iff in *.
    destruct (Qle_bool c a) eqn:E; [ | reflexivity ].
    apply Qle_bool_iff in E.
    assert (Hba : ~ (b <= a)%Q)
      by (intro X; apply Qle_bool_iff in X; congruence).
    assert (Hcb : ~ (c <= b)%Q)
      by (intro X; apply Qle_bool_iff in X; congruence).
    apply Qnot_le_lt in Hba. apply Qnot_le_lt in Hcb.
    exfalso. apply (Qlt_irrefl a).
    eapply Qlt_trans; [ exact Hba | ].
    eapply Qlt_le_trans; [ exact Hcb | exact E ].
  - rewrite negb_false_iff in *. apply Qle_bool_iff.
    apply Qle_bool_iff in H, H0. eapply Qle_trans; eassumption.
Qed.

(** ** Presentation *)

Section PresentationFacts.
Context {num : Type} `{JsNumber num}.

Lemma shouldDisplaySource_true_iff (st : LoadState) (d : Source num) :
  shouldDisplaySource st d = true <->
  st = LOADED \/ (st = LOADING /\ d = SrcNull).
Proof.
  unfold shouldDisplaySource.
  destruct st, d; simpl; split; intros X; try discriminate; auto;
    destruct X as [X | [X Y]]; discriminate.
Qed.

(** C3: while the state is LOADING and the [defaultSource] prop is
    absent (undefined), [shouldDisplaySource] is false: only a
    [defaultSource] that is exactly null counts as not configured. *)
Theorem shouldDisplaySource_loading_undefined_default :
  shouldDisplaySource LOADING (@SrcUndefined num) = false.
Proof. reflexivity. Qed.

(** C8: in the modes center and repeat, with a hidden image and a layout
    whose four dimensions are all truthy, the background size is
    [ceil(f * naturalWidth)px ceil(f * naturalHeight)px] with
    [f = min(1, width / naturalWidth, height / naturalHeight)]; with any
    other mode, without the image, or with a falsy dimension, there is no
    override. *)
Theorem getBackgroundSize_spec (ref : option (HiddenImage num))
  (mode : ResizeMode) (layout : Layout num) :
  (forall img,
      ref = Some img ->
      mode = center \/ mode = repeat ->
      num_truthy (naturalHeight img) = true ->
      num_truthy (naturalWidth img) = true ->
      num_truthy (layout_height layout) = true ->
      num_truthy (layout_width layout) = true ->
      let f := num_min3 num_one
                 (num_div (layout_width layout) (naturalWidth img))
                 (num_div (layout_height layout) (naturalHeight img)) in
      getBackgroundSize ref mode layout =
      Some (num_toString (num_ceil (num_mul f (naturalWidth img))) ++ "px " ++
            num_toString (num_ceil (num_mul f (naturalHeight img))) ++ "px")) /\
  ((mode <> center /\ mode <> repeat) \/
   ref = None \/
   (exists img, ref = Some img /\
      (num_truthy (naturalHeight img) = false \/
       num_truthy (naturalWidth img) = false \/
       num_truthy (layout_height layout) = false \/
       num_truthy (layout_width layout) = false)) ->
   getBackgroundSize ref mode layout = None).
Proof.
  split.
  - intros img -> Hm Hnh Hnw Hh Hw f. unfold getBackgroundSize.
    assert (Hc : centerOrRepeat mode = true) by (destruct Hm; subst; reflexivity).
    rewrite Hc, Hnh, Hnw, Hh, Hw. reflexivity.
  - intros [[Hc Hr] | [-> | [img [-> Hz]]]].
    + unfold getBackgroundSize. destruct ref; [ | reflexivity ].
      destruct mode; try reflexivity; congruence.
    + reflexivity.
    + unfold getBackgroundSize.
      destruct (centerOrRepeat mode); [ | reflexivity ].
      destruct Hz as [E | [E | [E | E]]]; rewrite E;
        rewrite ?andb_false_r; reflexivity.
Qed.
End PresentationFacts.

(** C8 on a 400x200 picture in a 100x100 box, centered. *)
Lemma getBackgroundSize_spec_witness :
  getBackgroundSize (Some Sample.picture) center Sample.box = Some "100px 50px".
Proof.
  exact (proj1 (getBackgroundSize_spec (Some Sample.picture) center Sample.box)
           Sample.picture eq_refl (or_introl eq_refl)
           eq_refl eq_refl eq_refl eq_refl).
Defined.

(** ** Resolver: failures *)

Section ResolverFailures.
Context {num : Type} `{JsNumber num}.
Variable getAssetByID : num -> option (Asset num).
Variable devicePixelRatio : option num.



(** C5: a handle the registry answers null for makes [resolveAssetUri]
    throw an error whose message holds the handle; no URI is returned. *)
Theorem resolveAssetUri_unknown_handle (handle : num) :
  getAssetByID handle = None ->
  resolveAssetUri getAssetByID devicePixelRatio (SrcNumber handle) =
    Throw (GenericError (assetNotFoundMessage handle)) /\
  (exists pre post,
      assetNotFoundMessage handle = pre ++ num_toString handle ++ post) /\
  (forall u, resolveAssetUri getAssetByID devicePixelRatio (SrcNumber handle) <> Return u).
Proof.
  intros Hnone.
  assert (E : resolveAssetUri getAssetByID devicePixelRatio (SrcNumber handle) =
              Throw (GenericError (assetNotFoundMessage handle))).
  { unfold resolveAssetUri. rewrite Hnone. reflexivity. }
  split; [ exact E | split ].
  - unfold assetNotFoundMessage.
    exists ("Image: asset with ID " ++ dquote),
      (dquote ++ " could not be found. Please check the image source or packager.").
    reflexivity.
  - intros u. rewrite E. discriminate.
Qed.

(** C9: the empty array makes [resolveAssetUri] throw a TypeError; it
    returns neither null nor a URI. *)
Theorem resolveAssetUri_empty_array :
  resolveAssetUri getAssetByID devicePixelRatio (SrcArray []) = Throw TypeError /\
  (forall u, resolveAssetUri getAssetByID devicePixelRatio (SrcArray []) <> Return u).
Proof.
  split; [ reflexivity | intros u; discriminate ].
Qed.

(** C10: for a handle the registry answers null for,
    [resolveAssetDimensions] throws a TypeError while [resolveAssetUri]
    throws the asset-not-found error: the two differ. *)
Theorem resolvers_differ_on_unknown_handle (handle : num) :
  getAssetByID handle = None ->
  resolveAssetDimensions getAssetByID (SrcNumber handle) = Throw TypeError /\
  resolveAssetUri getAssetByID devicePixelRatio (SrcNumber handle) =
    Throw (GenericError (assetNotFoundMessage handle)) /\
  TypeError <> GenericError (assetNotFoundMessage handle).
Proof.
  intros Hnone. unfold resolveAssetDimensions, resolveAssetUri.
  rewrite Hnone. repeat split. discriminate.
Qed.
End ResolverFailures.

(** C5 on the handle 7, which the sample registry does not hold. *)
Lemma resolveAssetUri_unknown_handle_witness :
  Sample.registry 7%Q = None /\
  resolveAssetUri Sample.registry None (SrcNumber 7%Q) =
    Throw (GenericError (assetNotFoundMessage 7%Q)).
Proof.
  split; [ reflexivity | ].
  exact (proj1 (resolveAssetUri_unknown_handle Sample.registry None 7%Q eq_refl)).
Defined.

(** C10 on the handle 7. *)
Lemma resolvers_differ_on_unknown_handle_witness :
  Sample.registry 7%Q = None /\
  resolveAssetDimensions Sample.registry (SrcNumber 7%Q) = Throw TypeError.
Proof.
  split; [ reflexivity | ].
  exact (proj1 (resolvers_differ_on_unknown_handle
                  Sample.registry None 7%Q eq_refl)).
Defined.

(** ** Resolver: scale selection *)

Lemma escapeSvgDataUri_other (s : string) :
  stripPrefix svgPrefix s = None ->
  escapeSvgDataUri (Some s) = Some s.
Proof.
  intros E. unfold escapeSvgDataUri, matchSvgDataUri. rewrite E.
  destruct s; reflexivity.
Qed.

Section ScaleSelection.
Context {num : Type} `{JsNumberOrder num}.
Variable getAssetByID : num -> option (Asset num).
Variable devicePixelRatio : option num.

Local Abbreviation closer := (closer devicePixelRatio).

(** [window.devicePixelRatio || 1]: a ratio that is a non-zero number is
    the preferred scale; 0, NaN and undefined give 1. *)
Lemma preferredScale_ratio (r : num) :
  devicePixelRatio = Some r -> num_truthy r = true ->
  preferredScale devicePixelRatio = r.
Proof. intros E T. unfold preferredScale. rewrite E, T. reflexivity. Qed.

Lemma preferredScale_fallback :
  devicePixelRatio = None \/
  (exists r, devicePixelRatio = Some r /\ num_truthy r = false) ->
  preferredScale devicePixelRatio = num_one.
Proof.
  unfold preferredScale. intros [E | (r & E & T)]; rewrite E; [ | rewrite T ];
    reflexivity.
Qed.

Lemma closer_asym (a b : num) : closer a b = true -> closer b a = false.
Proof.
  unfold closer. intros Hab.
  destruct (num_ltb (distance devicePixelRatio b) (distance devicePixelRatio a))
    eqn:Hba; [ | reflexivity ].
  pose proof (num_ltb_trans _ _ _ Hab Hba) as X.
  rewrite num_ltb_irrefl in X. discriminate.
Qed.

Lemma closer_trans (a b c : num) :
  closer a b = true -> closer b c = true -> closer a c = true.
Proof. unfold closer. apply num_ltb_trans. Qed.

Lemma closer_left (a b c : num) :
  closer a b = true -> closer c b = false -> closer a c = true.
Proof.
  unfold closer. intros Hab Hcb.
  destruct (num_ltb (distance devicePixelRatio a) (distance devicePixelRatio c))
    eqn:Hac; [ reflexivity | ].
  rewrite (num_ltb_negtrans _ _ _ Hac Hcb) in Hab. discriminate.
Qed.

(** The accumulator of [reduce]: strictly nearer than all that came before
    its own position, and none of those seen after it is nearer. *)
Lemma fold_closest_first_minimum (rest before mid : list num) (x : num) :
  (forall c, In c before -> closer x c = true) ->
  (forall c, In c mid -> closer c x = false) ->
  exists before' after',
    (before ++ x :: mid ++ rest)%list =
      (before' ++ fold_left (closest devicePixelRatio) rest x :: after')%list /\
    (forall c, In c before' ->
               closer (fold_left (closest devicePixelRatio) rest x) c = true) /\
    (forall c, In c after' ->
               closer c (fold_left (closest devicePixelRatio) rest x) = false).
Proof.
  revert before mid x.
  induction rest as [ | y rest IH ]; intros before mid x Hbefore Hmid.
  - exists before, mid. rewrite app_nil_r. simpl. auto.
  - simpl. unfold closest at 2 4 6.
    destruct (closer y x) eqn:Hyx.
    + destruct (IH (before ++ x :: mid)%list [] y) as (b' & a' & E & Hb & Ha).
      * intros c Hc. apply in_app_or in Hc.
        destruct Hc as [Hc | [<- | Hc]].
        -- eapply closer_trans; [ exact Hyx | auto ].
        -- exact Hyx.
        -- eapply closer_left; [ exact Hyx | auto ].
      * intros c [].
      * exists b', a'. split; [ | auto ].
        rewrite <- E. rewrite <- app_assoc. reflexivity.
    + destruct (IH before (mid ++ [y])%list x) as (b' & a' & E & Hb & Ha).
      * exact Hbefore.
      * intros c Hc. apply in_app_or in Hc.
        destruct Hc as [Hc | [<- | []]]; auto.
      * exists b', a'. split; [ | auto ].
        rewrite <- E. rewrite <- app_assoc. reflexivity.
Qed.

Lemma selectScale_first_minimum (asset : Asset num) :
  1 < List.length (scales asset) ->
  exists before s after,
    scales asset = (before ++ s :: after)%list /\
    selectScale devicePixelRatio asset = Return (Some s) /\
    (forall c, In c before -> closer s c = true) /\
    (forall c, In c (scales asset) -> closer c s = false).
Proof.
  intros Hlen. unfold selectScale.
  destruct (Nat.ltb_spec 1 (List.length (scales asset))) as [ _ | X ]; [ | lia ].
  destruct (scales asset) as [ | x rest ] eqn:Hs; [ simpl in Hlen; lia | ].
  destruct (fold_closest_first_minimum rest [] [] x) as (b & a & E & Hb & Ha);
    try (intros c []).
  simpl in E. exists b, (fold_left (closest devicePixelRatio) rest x), a.
  split; [ exact E | split; [ reflexivity | split; [ exact Hb | ] ] ].
  intros c Hc. rewrite E in Hc. apply in_app_or in Hc.
  destruct Hc as [Hc | [<- | Hc]].
  - apply closer_asym. auto.
  - unfold closer. apply num_ltb_irrefl.
  - auto.
Qed.

(** C4: for a numeric handle whose manifest lists more than one scale,
    and a device pixel ratio [r] (a non-zero number), the scale used is
    one that no candidate beats on [abs(candidate - r)], and every
    candidate listed before it is strictly farther from [r] (the first of
    the nearest wins); the URI carries no suffix when that scale is 1 and
    the suffix [@{scale}x] otherwise. *)
Theorem resolveAssetUri_multi_scale (handle : num) (asset : Asset num) (r : num) :
  getAssetByID handle = Some asset ->
  1 < List.length (scales asset) ->
  devicePixelRatio = Some r ->
  num_truthy r = true ->
  exists before s after,
    scales asset = (before ++ s :: after)%list /\
    (forall c, In c (scales asset) ->
       num_ltb (num_abs (num_sub c r)) (num_abs (num_sub s r)) = false) /\
    (forall c, In c before ->
       num_ltb (num_abs (num_sub s r)) (num_abs (num_sub c r)) = true) /\
    resolveAssetUri getAssetByID devicePixelRatio (SrcNumber handle) =
      Return (escapeSvgDataUri
                (Some (httpServerLocation asset ++ "/" ++ name asset ++
                       (if num_eqb s num_one then EmptyString
                        else "@" ++ num_toString s ++ "x") ++
                       "." ++ type asset))).
Proof.
  intros Hasset Hlen Hdpr Hr.
  destruct (selectScale_first_minimum asset Hlen)
    as (before & s & after & E & Hsel & Hb & Hall).
  pose proof (preferredScale_ratio r Hdpr Hr) as Hp.
  unfold closer, distance in Hb, Hall. rewrite Hp in Hb, Hall.
  exists before, s, after.
  split; [ exact E | split; [ exact Hall | split; [ exact Hb | ] ] ].
  unfold resolveAssetUri. rewrite Hasset, Hsel. reflexivity.
Qed.
End ScaleSelection.

(** Scales 1, 2, 3 on a device of ratio 2.4: the scale 2 is used. *)
Example resolveAssetUri_logo_ratio_2_4 :
  selectScale (Some (12 # 5)%Q) Sample.logo = Return (Some 2%Q) /\
  resolveAssetUri Sample.registry (Some (12 # 5)%Q) (SrcNumber 1%Q) =
    Return (Some "/assets/logo@2x.png").
Proof. split; reflexivity. Qed.

(** On a device of ratio 1 the scale 1 is used and nothing is appended. *)
Example resolveAssetUri_logo_ratio_1 :
  resolveAssetUri Sample.registry (Some 1%Q) (SrcNumber 1%Q) =
    Return (Some "/assets/logo.png").
Proof. reflexivity. Qed.

(** Two candidates at the same distance: the one met first is kept. *)
Example resolveAssetUri_logo_tie :
  resolveAssetUri Sample.registry (Some (5 # 2)%Q) (SrcNumber 1%Q) =
    Return (Some "/assets/logo@2x.png").
Proof. reflexivity. Qed.

(** C4 on the sample registry with a device of ratio 2.4. *)
Lemma resolveAssetUri_multi_scale_witness :
  exists before s after,
    scales Sample.logo = (before ++ s :: after)%list /\
    (forall c, In c (scales Sample.logo) ->
       num_ltb (num_abs (num_sub c (12 # 5)%Q))
               (num_abs (num_sub s (12 # 5)%Q)) = false) /\
    (forall c, In c before ->
       num_ltb (num_abs (num_sub s (12 # 5)%Q))
               (num_abs (num_sub c (12 # 5)%Q)) = true) /\
    resolveAssetUri Sample.registry (Some (12 # 5)%Q) (SrcNumber 1%Q) =
      Return (escapeSvgDataUri
                (Some (httpServerLocation Sample.logo ++ "/" ++ name Sample.logo ++
                       (if num_eqb s num_one then EmptyString
                        else "@" ++ num_toString s ++ "x") ++
                       "." ++ type Sample.logo))).
Proof.
  apply (resolveAssetUri_multi_scale Sample.registry (Some (12 # 5)%Q)
           1%Q Sample.logo (12 # 5)%Q).
  - reflexivity.
  - simpl. lia.
  - reflexivity.
  - reflexivity.
Defined.

(** ** The load effect *)

Lemma oneAtATime_app (t1 t2 : list Event) (cur : list RequestHandle) :
  oneAtATime cur t1 ->
  oneAtATime (fold_left liveAfter t1 cur) t2 ->
  oneAtATime cur (t1 ++ t2)%list.
Proof.
  revert cur. induction t1 as [ | ev t1 IH ]; intros cur H1 H2.
  - exact H2.
  - simpl in *. destruct H1 as (Hl & Hn & Hr). auto.
Qed.

Lemma oneAtATime_prefix (pre post : list Event) (cur : list RequestHandle) :
  List.length cur <= 1 ->
  oneAtATime cur (pre ++ post)%list ->
  List.length (fold_left liveAfter pre cur) <= 1 /\
  (forall u h rest, post = CallLoad u h :: rest ->
                    fold_left liveAfter pre cur = []).
Proof.
  revert cur. induction pre as [ | ev pre IH ]; intros cur Hcur Hall.
  - simpl. split; [ exact Hcur | ].
    intros u h rest ->. simpl in Hall. tauto.
  - simpl in *. destruct Hall as (_ & Hn & Hr). apply IH; assumption.
Qed.

Lemma abortPendingRequest_spec (i : Instance) :
  abortPendingRequest i =
  ({| state := state i; requestRef := None |},
   match requestRef i with
   | Some h => [CallAbort h]
   | None => []
   end).
Proof.
  unfold abortPendingRequest. destruct i as [st [h | ]]; reflexivity.
Qed.

(** What a changed render calls, in order. *)
Lemma step_render_changed (w : World) (u : option string) (cbs : Callbacks)
  (handle : RequestHandle) :
  mounted w = true ->
  deps_eqb (deps w) (u, cbs) = false ->
  snd (step w (Render u cbs handle)) =
    (match requestRef (inst w) with
     | Some h => [CallAbort h]
     | None => []
     end ++
     match u with
     | Some u' => optionalCall (onLoadStart cbs) CallOnLoadStart ++
                  [CallLoad u' handle]
     | None => []
     end)%list /\
  requestRef (inst (fst (step w (Render u cbs handle)))) =
    match u with
    | Some _ => Some handle
    | None => None
    end.
Proof.
  intros Hm Hd. unfold step. rewrite Hm, Hd. simpl.
  rewrite abortPendingRequest_spec. unfold loadEffect.
  rewrite abortPendingRequest_spec. simpl.
  destruct u; simpl; split; reflexivity.
Qed.

Lemma step_unmount (w : World) :
  mounted w = true ->
  snd (step w Unmount) =
    match requestRef (inst w) with
    | Some h => [CallAbort h]
    | None => []
    end /\
  requestRef (inst (fst (step w Unmount))) = None /\
  mounted (fst (step w Unmount)) = false.
Proof.
  intros Hm. unfold step. rewrite Hm. simpl.
  rewrite abortPendingRequest_spec. simpl. auto.
Qed.

(** Every step keeps the discipline and leaves [requestRef] equal to what
    is live. *)
Lemma step_oneAtATime (w : World) (a : Action) :
  oneAtATime (handleList (requestRef (inst w))) (snd (step w a)) /\
  fold_left liveAfter (snd (step w a)) (handleList (requestRef (inst w))) =
    handleList (requestRef (inst (fst (step w a)))).
Proof.
  destruct (mounted w) eqn:Hm.
  2:{ unfold step. rewrite Hm. simpl. auto. }
  destruct a as [u cbs handle | e | e | ].
  - destruct (deps_eqb (deps w) (u, cbs)) eqn:Hd.
    + unfold step. rewrite Hm, Hd. simpl. auto.
    + destruct (step_render_changed w u cbs handle Hm Hd) as [-> ->].
      destruct (requestRef (inst w)) as [h | ], u as [u' | ],
        (onLoadStart cbs) as [f | ];
        simpl; rewrite ?Nat.eqb_refl; simpl; auto 10.
  - unfold step. rewrite Hm. simpl.
    destruct (pending w) as [r | ]; simpl; [ | auto ].
    destruct (onLoad (pending_callbacks r)), (onLoadEnd (pending_callbacks r));
      destruct (requestRef (inst w)); simpl; auto 10.
  - unfold step. rewrite Hm. simpl.
    destruct (pending w) as [r | ]; simpl; [ | auto ].
    destruct (onError (pending_callbacks r)), (onLoadEnd (pending_callbacks r));
      destruct (requestRef (inst w)); simpl; auto 10.
  - destruct (step_unmount w Hm) as (-> & -> & _).
    destruct (requestRef (inst w)); simpl; rewrite ?Nat.eqb_refl; simpl; auto.
Qed.

Lemma run_oneAtATime (actions : list Action) (w : World) :
  oneAtATime (handleList (requestRef (inst w))) (snd (run w actions)) /\
  fold_left liveAfter (snd (run w actions)) (handleList (requestRef (inst w))) =
    handleList (requestRef (inst (fst (run w actions)))).
Proof.
  revert w. induction actions as [ | a rest IH ]; intros w.
  - simpl. auto.
  - simpl. destruct (step_oneAtATime w a) as [Hs Es].
    destruct (step w a) as [w1 t1]. simpl in Hs, Es.
    specialize (IH w1). destruct (run w1 rest) as [w2 t2]. simpl in *.
    destruct IH as [Hr Er]. split.
    + apply oneAtATime_app; [ exact Hs | rewrite Es; exact Hr ].
    + rewrite fold_left_app, Es. exact Er.
Qed.

Lemma step_pendingIsCurrent (w : World) (a : Action) (t : list Event) :
  pendingIsCurrent w t ->
  pendingIsCurrent (fst (step w a)) (t ++ snd (step w a))%list.
Proof.
  intros Hw.
  assert (Hkeep : pendingIsCurrent w (t ++ [])%list)
    by (rewrite app_nil_r; exact Hw).
  destruct (mounted w) eqn:Hm.
  2:{ unfold step. rewrite Hm. simpl. exact Hkeep. }
  assert (Hgone : forall h,
             requestRef (inst w) = h ->
             loaderAbort match h with Some x => [CallAbort x] | None => [] end
               (pending w) = None).
  { intros h Hh. destruct (pending w) as [r | ] eqn:Hp.
    - destruct (Hw r Hp) as (_ & Hr & _). rewrite Hr in Hh. subst h.
      simpl. rewrite Nat.eqb_refl. reflexivity.
    - destruct h; reflexivity. }
  destruct a as [u cbs handle | e | e | ].
  - destruct (deps_eqb (deps w) (u, cbs)) eqn:Hd.
    + unfold step. rewrite Hm, Hd. simpl. exact Hkeep.
    + unfold step. rewrite Hm, Hd. simpl.
      rewrite abortPendingRequest_spec. unfold loadEffect.
      rewrite abortPendingRequest_spec. simpl.
      destruct u as [u' | ]; simpl.
      * intros r Hr. simpl in Hr. injection Hr as <-. simpl.
        split; [ reflexivity | split; [ reflexivity | ] ].
        apply in_or_app. right. apply in_or_app. right.
        apply in_or_app. right. left. reflexivity.
      * intros r Hr. simpl in Hr. rewrite app_nil_r in Hr.
        rewrite (Hgone _ eq_refl) in Hr. discriminate.
  - unfold step. rewrite Hm. simpl.
    destruct (pending w) as [r | ] eqn:Hp; simpl.
    + intros r' Hr'. discriminate.
    + intros r' Hr'. congruence.
  - unfold step. rewrite Hm. simpl.
    destruct (pending w) as [r | ] eqn:Hp; simpl.
    + intros r' Hr'. discriminate.
    + intros r' Hr'. congruence.
  - unfold step. rewrite Hm. simpl. rewrite abortPendingRequest_spec. simpl.
    intros r Hr. simpl in Hr. rewrite (Hgone _ eq_refl) in Hr. discriminate.
Qed.

Lemma run_pendingIsCurrent (actions : list Action) (w : World) (t : list Event) :
  pendingIsCurrent w t ->
  pendingIsCurrent (fst (run w actions)) (t ++ snd (run w actions))%list.
Proof.
  revert w t. induction actions as [ | a rest IH ]; intros w t Hw.
  - simpl. rewrite app_nil_r. exact Hw.
  - simpl. pose proof (step_pendingIsCurrent w a t Hw) as Hs.
    destruct (step w a) as [w1 t1]. simpl in Hs.
    specialize (IH w1 _ Hs). destruct (run w1 rest) as [w2 t2]. simpl in *.
    rewrite app_assoc. exact IH.
Qed.

Lemma option_eqb_string_true (a b : option string) :
  option_eqb String.eqb a b = true -> a = b.
Proof.
  destruct a as [x | ], b as [y | ]; simpl; try discriminate; auto.
  intros E. apply String.eqb_eq in E. congruence.
Qed.

Lemma deps_changed_by_uri (d : option string * Callbacks) (u : option string)
  (cbs : Callbacks) :
  fst d <> u -> deps_eqb d (u, cbs) = false.
Proof.
  intros Hne. unfold deps_eqb. simpl.
  destruct (option_eqb String.eqb (fst d) u) eqn:E; [ | reflexivity ].
  apply option_eqb_string_true in E. contradiction.
Qed.

Section ComponentFacts.
Context {num : Type} `{JsNumber num}.
Variable getAssetByID : num -> option (Asset num).
Variable devicePixelRatio : option num.
Variable has : string -> bool.

Lemma mount_inv (source : Source num) (cbs : Callbacks) (handle : RequestHandle)
  (w : World) (t : list Event) :
  mount getAssetByID devicePixelRatio has source cbs handle = Return (w, t) ->
  exists u s0,
    resolveAssetUri getAssetByID devicePixelRatio source = Return u /\
    initialState getAssetByID devicePixelRatio has source = Return s0 /\
    w = {| mounted := true;
           inst := match u with
                   | Some _ => {| state := LOADING; requestRef := Some handle |}
                   | None => {| state := s0; requestRef := None |}
                   end;
           deps := (u, cbs);
           pending := newPending u cbs handle None |} /\
    t = match u with
        | Some u' => (optionalCall (onLoadStart cbs) CallOnLoadStart ++
                      [CallLoad u' handle])%list
        | None => []
        end.
Proof.
  unfold mount, initialState.
  destruct (resolveAssetUri getAssetByID devicePixelRatio source) as [u | e];
    simpl; [ | discriminate ].
  intros E. exists u. eexists. split; [ reflexivity | split; [ reflexivity | ] ].
  unfold loadEffect in E. rewrite abortPendingRequest_spec in E. simpl in E.
  destruct u as [u' | ]; injection E as <- <-; split; reflexivity.
Qed.

Lemma mount_oneAtATime (source : Source num) (cbs : Callbacks)
  (handle : RequestHandle) (w : World) (t : list Event) :
  mount getAssetByID devicePixelRatio has source cbs handle = Return (w, t) ->
  oneAtATime [] t /\
  live t = handleList (requestRef (inst w)) /\
  pendingIsCurrent w t.
Proof.
  intros Hmount. apply mount_inv in Hmount.
  destruct Hmount as (u & s0 & _ & _ & -> & ->).
  destruct u as [u' | ]; simpl.
  - destruct (onLoadStart cbs); simpl; (split; [ auto 10 | split; [ reflexivity | ] ]);
      intros r Hr; injection Hr as <-; simpl; auto 10.
  - split; [ exact I | split; [ reflexivity | ] ]. intros r Hr. discriminate.
Qed.

(** C1: from the mount on and through any sequence of renders, loader
    callbacks and the unmount, at most one handle is loaded and not yet
    aborted at every point of the calls made, and [ImageLoader.load] is
    only called when none is; a render that changes the resolved URI while
    [requestRef] holds a handle calls [ImageLoader.abort] on that handle
    first and [ImageLoader.load] for the new URI last; unmounting aborts
    the handle held and leaves nothing live. *)
Theorem load_effect_one_live_request (source : Source num) (cbs : Callbacks)
  (h0 : RequestHandle) (w0 : World) (t0 : list Event) (actions : list Action) :
  mount getAssetByID devicePixelRatio has source cbs h0 = Return (w0, t0) ->
  let w := fst (run w0 actions) in
  let t := (t0 ++ snd (run w0 actions))%list in
  (forall pre post,
      t = (pre ++ post)%list ->
      List.length (live pre) <= 1 /\
      (forall u h rest, post = CallLoad u h :: rest -> live pre = [])) /\
  live t = handleList (requestRef (inst w)) /\
  (forall h u cbs' h',
      mounted w = true ->
      requestRef (inst w) = Some h ->
      fst (deps w) <> Some u ->
      snd (step w (Render (Some u) cbs' h')) =
        (CallAbort h :: optionalCall (onLoadStart cbs') CallOnLoadStart ++
         [CallLoad u h'])%list) /\
  (forall h,
      mounted w = true ->
      requestRef (inst w) = Some h ->
      snd (step w Unmount) = [CallAbort h] /\
      live (t ++ snd (step w Unmount)) = []).
Proof.
  intros Hmount w t.
  destruct (mount_oneAtATime _ _ _ _ _ Hmount) as (H0 & L0 & _).
  destruct (run_oneAtATime actions w0) as [Hr Lr].
  rewrite <- L0 in Hr, Lr. fold w in Lr.
  assert (Ht : oneAtATime [] t)
    by (apply oneAtATime_app; assumption).
  assert (Lt : live t = handleList (requestRef (inst w))).
  { unfold live, t. rewrite fold_left_app. exact Lr. }
  split; [ | split; [ exact Lt | split ] ].
  - intros pre post E. rewrite E in Ht.
    apply (oneAtATime_prefix pre post []); [ simpl; lia | exact Ht ].
  - intros h u cbs' h' Hm Hh Hu.
    destruct (step_render_changed w (Some u) cbs' h' Hm
                (deps_changed_by_uri _ _ _ Hu)) as [-> _].
    rewrite Hh. reflexivity.
  - intros h Hm Hh.
    destruct (step_unmount w Hm) as (-> & _ & _). rewrite Hh.
    split; [ reflexivity | ].
    unfold live. rewrite fold_left_app. fold (live t). rewrite Lt, Hh.
    simpl. rewrite Nat.eqb_refl. reflexivity.
Qed.

(** C2, as the effect has it: when the resolved URI is not null and the
    loader's cache holds it, the state the component is created with is
    LOADED; the load effect of the mount then sets LOADING, calls
    [onLoadStart] if it is given, and calls [ImageLoader.load]; it makes no
    [onLoadEnd] call. *)
Theorem mount_with_cached_uri (source : Source num) (cbs : Callbacks)
  (handle : RequestHandle) (u : string) :
  resolveAssetUri getAssetByID devicePixelRatio source = Return (Some u) ->
  has u = true ->
  initialState getAssetByID devicePixelRatio has source = Return LOADED /\
  exists w t,
    mount getAssetByID devicePixelRatio has source cbs handle = Return (w, t) /\
    t = (optionalCall (onLoadStart cbs) CallOnLoadStart ++
         [CallLoad u handle])%list /\
    count isLoadStart t = List.length (optionalCall (onLoadStart cbs) CallOnLoadStart) /\
    count isLoadEnd t = 0 /\
    state (inst w) = LOADING /\
    requestRef (inst w) = Some handle.
Proof.
  intros Hu Hhas.
  assert (Hinit : initialState getAssetByID devicePixelRatio has source =
                  Return LOADED).
  { unfold initialState. rewrite Hu. simpl. rewrite Hhas. reflexivity. }
  split; [ exact Hinit | ].
  unfold mount. rewrite Hinit, Hu. simpl.
  unfold loadEffect. simpl.
  eexists. eexists. split; [ reflexivity | ].
  destruct (onLoadStart cbs); simpl; auto 10.
Qed.

(** C6: when the loader fires the failure callback of the request it
    still has to settle, and [onError] and [onLoadEnd] are given, the calls
    made are one [onError], whose message holds the URI the request was
    loaded with, then one [onLoadEnd]; [onLoad] is not called, the state is
    ERRORED, and the loader has nothing left to settle. *)
Theorem failed_load_notifications (source : Source num) (cbs : Callbacks)
  (h0 : RequestHandle) (w0 : World) (t0 : list Event) (actions : list Action)
  (r : Pending) (e : LoaderEvent) (f g : nat) :
  mount getAssetByID devicePixelRatio has source cbs h0 = Return (w0, t0) ->
  let w := fst (run w0 actions) in
  pending w = Some r ->
  onError (pending_callbacks r) = Some f ->
  onLoadEnd (pending_callbacks r) = Some g ->
  In (CallLoad (pending_uri r) (pending_handle r))
     (t0 ++ snd (run w0 actions))%list /\
  snd (step w (LoaderFailure e)) =
    [CallOnError (failureMessage (pending_uri r)); CallOnLoadEnd e] /\
  (exists pre post,
      failureMessage (pending_uri r) = pre ++ pending_uri r ++ post) /\
  count isOnError (snd (step w (LoaderFailure e))) = 1 /\
  count isLoadEnd (snd (step w (LoaderFailure e))) = 1 /\
  count isOnLoad (snd (step w (LoaderFailure e))) = 0 /\
  state (inst (fst (step w (LoaderFailure e)))) = ERRORED /\
  pending (fst (step w (LoaderFailure e))) = None.
Proof.
  intros Hmount w Hp Herr Hend.
  destruct (mount_oneAtATime _ _ _ _ _ Hmount) as (_ & _ & P0).
  pose proof (run_pendingIsCurrent actions w0 t0 P0) as P. fold w in P.
  destruct (P r Hp) as (Hm & _ & Hin).
  split; [ exact Hin | ].
  unfold step. rewrite Hm, Hp. simpl. rewrite Herr, Hend. simpl.
  repeat split.
  exists "Failed to load resource ", " (404)". reflexivity.
Qed.
End ComponentFacts.

(** C1 on a component mounted on [a.png], re-rendered on [b.png], whose
    second request fails, and which is then unmounted. *)
Lemma load_effect_one_live_request_witness :
  exists w0 t0,
    mount Sample.registry None Sample.cached (SrcString "a.png")
      Sample.allCallbacks 0 = Return (w0, t0) /\
    (forall pre post,
        (t0 ++ snd (run w0 Sample.actions))%list = (pre ++ post)%list ->
        List.length (live pre) <= 1 /\
        (forall u h rest, post = CallLoad u h :: rest -> live pre = [])).
Proof.
  eexists. eexists. split; [ reflexivity | ].
  apply (load_effect_one_live_request Sample.registry None Sample.cached
           (SrcString "a.png") Sample.allCallbacks 0 _ _ Sample.actions eq_refl).
Defined.

Example load_effect_trace :
  exists w0 t0,
    mount Sample.registry None Sample.cached (SrcString "a.png")
      Sample.allCallbacks 0 = Return (w0, t0) /\
    (t0 ++ snd (run w0 Sample.actions))%list =
      [CallOnLoadStart; CallLoad "a.png" 0;
       CallAbort 0; CallOnLoadStart; CallLoad "b.png" 1;
       CallOnError "Failed to load resource b.png (404)"; CallOnLoadEnd 0;
       CallAbort 1].
Proof. eexists. eexists. split; reflexivity. Qed.

(** C2 on a cached [a.png]. *)
Lemma mount_with_cached_uri_witness :
  Sample.cached "a.png" = true /\
  initialState Sample.registry None Sample.cached (SrcString "a.png") =
    Return LOADED.
Proof.
  split; [ reflexivity | ].
  exact (proj1 (mount_with_cached_uri Sample.registry None Sample.cached
                  (SrcString "a.png") Sample.allCallbacks 0 "a.png"
                  eq_refl eq_refl)).
Defined.

(** C2 as it is worded fails: mounting on a cached URI with an
    [onLoadStart] handler calls the handler once. *)
Lemma mount_with_cached_uri_calls_onLoadStart :
  resolveAssetUri Sample.registry None (SrcString "a.png") =
    Return (Some "a.png") /\
  Sample.cached "a.png" = true /\
  ~ (forall w t,
        mount Sample.registry None Sample.cached (SrcString "a.png")
          Sample.allCallbacks 0 = Return (w, t) ->
        count isLoadStart t = 0 /\ count isLoadEnd t = 0).
Proof.
  split; [ reflexivity | split; [ reflexivity | ] ].
  intros Hclaim.
  destruct (Hclaim _ _ eq_refl) as [Hstart _].
  discriminate Hstart.
Qed.

(** C6 on the first request of a component mounted on [a.png]. *)
Lemma failed_load_notifications_witness :
  exists w0 t0,
    mount Sample.registry None Sample.cached (SrcString "a.png")
      Sample.allCallbacks 0 = Return (w0, t0) /\
    snd (step (fst (run w0 [])) (LoaderFailure 5)) =
      [CallOnError "Failed to load resource a.png (404)"; CallOnLoadEnd 5].
Proof.
  eexists. eexists. split; [ reflexivity | ].
  exact (proj1 (proj2
    (failed_load_notifications Sample.registry None Sample.cached
       (SrcString "a.png") Sample.allCallbacks 0 _ _ []
       {| pending_handle := 0; pending_uri := "a.png";
          pending_callbacks := Sample.allCallbacks |}
       5 0 2 eq_refl eq_refl eq_refl eq_refl))).
Defined.

(** ** Resolver: inline SVG *)






Section InlineSvg.
Context {num : Type} `{JsNumber num}.
Variable getAssetByID : num -> option (Asset num).
Variable devicePixelRatio : option num.


End InlineSvg.

(** C7 at an inline SVG written on two lines: resolution keeps the prefix
    and encodes the first line only; what follows the line feed is lost,
    so decoding the result does not give the markup back. *)
Theorem resolveAssetUri_svg_two_lines :
  stripPrefix svgPrefix (svgPrefix ++ Sample.twoLineSvg) = Some Sample.twoLineSvg /\
  resolveAssetUri Sample.registry None
    (SrcString (svgPrefix ++ Sample.twoLineSvg)) =
  Return (Some (svgPrefix ++ "%3Csvg%20xmlns%3D%22%23%22%3E")) /\
  percentDecode "%3Csvg%20xmlns%3D%22%23%22%3E" =
    Some ("<svg xmlns=" ++ dquote ++ "#" ++ dquote ++ ">") /\
  percentDecode "%3Csvg%20xmlns%3D%22%23%22%3E" <> Some Sample.twoLineSvg /\
  encodeURIComponent Sample.twoLineSvg =
    "%3Csvg%20xmlns%3D%22%23%22%3E%0A%3C%2Fsvg%3E".
Proof.
  repeat split; try reflexivity. vm_compute. discriminate.
Qed.

(** * Further properties of the code *)

(** ** Resolver: when it throws, when it answers null *)

Lemma escapeSvgDataUri_some (s : string) :
  exists s', escapeSvgDataUri (Some s) = Some s'.
Proof.
  unfold escapeSvgDataUri. destruct s as [ | c r ]; [ eauto | ].
  destruct (matchSvgDataUri (String c r)) as [[p svg] | ]; eauto.
Qed.

Section ResolverTotality.
Context {num : Type} `{JsNumber num}.
Variable getAssetByID : num -> option (Asset num).
Variable devicePixelRatio : option num.

Lemma fold_closest_member (rest : list num) (x : num) :
  In (fold_left (closest devicePixelRatio) rest x) (x :: rest).
Proof.
  revert x. induction rest as [ | y rest IH ]; intros x.
  - left. reflexivity.
  - simpl fold_left. unfold closest at 2.
    destruct (closer devicePixelRatio y x).
    + right. apply IH.
    + destruct (IH x) as [E | Hin]; [ left; exact E | right; right; exact Hin ].
Qed.

Lemma selectScale_cases (asset : Asset num) :
  (scales asset = [] /\ selectScale devicePixelRatio asset = Return None) \/
  (exists s, selectScale devicePixelRatio asset = Return (Some s) /\
             In s (scales asset)).
Proof.
  unfold selectScale. destruct (scales asset) as [ | x rest ] eqn:E.
  - left. split; reflexivity.
  - right. destruct rest as [ | y rest ].
    + exists x. simpl. auto.
    + exists (fold_left (closest devicePixelRatio) (y :: rest) x).
      split; [ reflexivity | apply fold_closest_member ].
Qed.

(** The scale of a manifest is always one of the scales it lists, whatever
    the numbers compare like; only a manifest without scales has none.
    The selection itself never throws. *)
Theorem selectScale_member (asset : Asset num) :
  (scales asset = [] /\ selectScale devicePixelRatio asset = Return None) \/
  (exists s, selectScale devicePixelRatio asset = Return (Some s) /\
             In s (scales asset)).
Proof. exact (selectScale_cases asset). Qed.

Lemma selectScale_returns (asset : Asset num) :
  exists s, selectScale devicePixelRatio asset = Return s.
Proof.
  destruct (selectScale_cases asset) as [[_ E] | (s & E & _)]; eauto.
Qed.


(** [resolveAssetUri] answers null exactly for a source that is undefined
    or null. *)
Theorem resolveAssetUri_null_iff (source : Source num) :
  resolveAssetUri getAssetByID devicePixelRatio source = Return None <->
  source = SrcUndefined \/ source = SrcNull.
Proof.
  split.
  - unfold resolveAssetUri, bindC.
    destruct source as [ | | handle | s | o | [ | o l ] ]; auto;
      try discriminate;
      try (match goal with
           | |- context [escapeSvgDataUri (Some ?x)] =>
               destruct (escapeSvgDataUri_some x) as [s' ->]
           end; discriminate).
    destruct (getAssetByID handle) as [asset | ]; [ | discriminate ].
    destruct (selectScale_returns asset) as [s ->].
    destruct (escapeSvgDataUri_some (assetUri asset s)) as [s' ->].
    discriminate.
  - intros [-> | ->]; reflexivity.
Qed.

(** An array resolves as its first element, whatever follows it, an
    object as its [uri], and a [uri] that does not start with the inline
    SVG prefix is returned as it is. *)
Theorem resolveAssetUri_first_uri (o : SourceObject num)
  (rest : list (SourceObject num)) :
  resolveAssetUri getAssetByID devicePixelRatio (SrcArray (o :: rest)) =
    resolveAssetUri getAssetByID devicePixelRatio (SrcString (uri o)) /\
  resolveAssetUri getAssetByID devicePixelRatio (SrcObject o) =
    resolveAssetUri getAssetByID devicePixelRatio (SrcString (uri o)) /\
  (stripPrefix svgPrefix (uri o) = None ->
   resolveAssetUri getAssetByID devicePixelRatio (SrcArray (o :: rest)) =
     Return (Some (uri o))).
Proof.
  split; [ reflexivity | split; [ reflexivity | ] ].
  intros E. unfold resolveAssetUri, bindC.
  rewrite (escapeSvgDataUri_other _ E). reflexivity.
Qed.

Lemma resolveAssetDimensions_throw_handle (source : Source num) (e : JsError) :
  resolveAssetDimensions getAssetByID source = Throw e ->
  exists handle,
    source = SrcNumber handle /\ getAssetByID handle = None /\ e = TypeError.
Proof.
  destruct source as [ | | handle | s | o | l ]; simpl; try discriminate.
  destruct (getAssetByID handle) eqn:E; [ discriminate | ].
  intros X. injection X as <-. exists handle. auto.
Qed.

(** [resolveAssetDimensions] throws for a numeric handle the registry
    answers null for and in no other case, and answers undefined exactly
    for the sources that are neither a number nor an object. *)
Theorem resolveAssetDimensions_cases (source : Source num) :
  (forall e,
      resolveAssetDimensions getAssetByID source = Throw e <->
      exists handle,
        source = SrcNumber handle /\ getAssetByID handle = None /\
        e = TypeError) /\
  (resolveAssetDimensions getAssetByID source = Return None <->
   (forall handle, source <> SrcNumber handle) /\
   (forall o, source <> SrcObject o)).
Proof.
  split.
  - intros e. split.
    + apply resolveAssetDimensions_throw_handle.
    + intros (handle & -> & E & ->). simpl. rewrite E. reflexivity.
  - split.
    + destruct source as [ | | handle | s | o | l ]; simpl;
        try (intros _; split; intros; discriminate).
      * destruct (getAssetByID handle); discriminate.
      * discriminate.
    + intros [Hn Ho].
      destruct source as [ | | handle | s | o | l ]; simpl; try reflexivity.
      * exfalso. apply (Hn handle). reflexivity.
      * exfalso. apply (Ho o). reflexivity.
Qed.
End ResolverTotality.

Section ScaleEdges.
Context {num : Type} `{JsNumber num}.
Variable getAssetByID : num -> option (Asset num).

(** A manifest listing at most one scale resolves to the same URI on
    every device; one listing no scale at all gets the suffix
    [@undefinedx]. *)
Theorem resolveAssetUri_one_scale (handle : num) (asset : Asset num)
  (ratio ratio' : option num) :
  getAssetByID handle = Some asset ->
  List.length (scales asset) <= 1 ->
  resolveAssetUri getAssetByID ratio (SrcNumber handle) =
    resolveAssetUri getAssetByID ratio' (SrcNumber handle) /\
  (scales asset = [] ->
   resolveAssetUri getAssetByID ratio (SrcNumber handle) =
     Return (escapeSvgDataUri
               (Some (httpServerLocation asset ++ "/" ++ name asset ++
                      "@undefinedx" ++ "." ++ type asset)))).
Proof.
  intros E Hlen. unfold resolveAssetUri. rewrite E. unfold selectScale.
  destruct (Nat.ltb_spec 1 (List.length (scales asset))) as [X | _]; [ lia | ].
  split; [ reflexivity | ].
  intros ->. reflexivity.
Qed.
End ScaleEdges.


Lemma resolveAssetUri_null_iff_witness :
  resolveAssetUri Sample.registry None SrcNull = Return None.
Proof.
  apply (proj2 (resolveAssetUri_null_iff Sample.registry None SrcNull)).
  right. reflexivity.
Defined.

Lemma resolveAssetUri_first_uri_witness :
  resolveAssetUri Sample.registry None
    (SrcArray [ {| uri := "a.png"; height := None; width := None |};
                {| uri := "b.png"; height := None; width := None |} ]) =
  Return (Some "a.png").
Proof.
  exact (proj2 (proj2 (resolveAssetUri_first_uri Sample.registry None
           {| uri := "a.png"; height := None; width := None |}
           [ {| uri := "b.png"; height := None; width := None |} ]))
         eq_refl).
Defined.

Lemma resolveAssetDimensions_cases_witness :
  resolveAssetDimensions Sample.registry (SrcString "a.png") = Return None.
Proof.
  apply (proj2 (proj2 (resolveAssetDimensions_cases Sample.registry
                         (SrcString "a.png")))).
  split; intros; discriminate.
Defined.

Lemma resolveAssetUri_one_scale_witness :
  resolveAssetUri Demo.badgeRegistry (Some (3 # 1)%Q) (SrcNumber 2%Q) =
  resolveAssetUri Demo.badgeRegistry None (SrcNumber 2%Q).
Proof.
  refine (proj1 (resolveAssetUri_one_scale Demo.badgeRegistry 2%Q Demo.badge
                   (Some (3 # 1)%Q) None eq_refl _)).
  simpl. lia.
Defined.

Example resolveAssetUri_badge :
  resolveAssetUri Demo.badgeRegistry (Some 1%Q) (SrcNumber 2%Q) =
    Return (Some "/assets/badge@2x.png").
Proof. reflexivity. Qed.

(** ** Resolver: what an escaped inline SVG is made of *)




Section InlineSvgOutput.
Context {num : Type} `{JsNumber num}.
Variable getAssetByID : num -> option (Asset num).
Variable devicePixelRatio : option num.

End InlineSvgOutput.


Example resolveAssetUri_svg_fill :
  resolveAssetUri Sample.registry None
    (SrcString (svgPrefix ++ "<svg fill='#fff'/>")) =
  Return (Some (svgPrefix ++ "%3Csvg%20fill%3D'%23fff'%2F%3E")).
Proof. reflexivity. Qed.

(** ** What a render throws *)

Section RenderFacts.
Context {num : Type} `{JsNumber num}.
Variable getAssetByID : num -> option (Asset num).
Variable devicePixelRatio : option num.

(** Whatever a render throws is thrown by [resolveAssetUri], on the source
    displayed or on [source]: the TypeError of [resolveAssetDimensions] on
    an unknown handle never comes out of the component, the asset-not-found
    error is thrown first. *)
Theorem renderDerived_throws (state : LoadState)
  (source defaultSource : Source num) (e : JsError) :
  renderDerived getAssetByID devicePixelRatio state source defaultSource =
    Throw e ->
  resolveAssetUri getAssetByID devicePixelRatio
    (selectedSource state source defaultSource) = Throw e \/
  resolveAssetUri getAssetByID devicePixelRatio source = Throw e.
Proof.
  unfold renderDerived.
  set (selected := selectedSource state source defaultSource).
  destruct (resolveAssetUri getAssetByID devicePixelRatio selected)
    as [display | e1] eqn:Hd; simpl.
  2:{ intros X. injection X as <-. left. reflexivity. }
  destruct (resolveAssetDimensions getAssetByID selected) as [size | e2] eqn:Hs;
    simpl.
  2:{ exfalso.
      apply (resolveAssetDimensions_throw_handle getAssetByID selected) in Hs.
      destruct Hs as (handle & Hsel & Hnone & _).
      rewrite Hsel in Hd. unfold resolveAssetUri in Hd.
      rewrite Hnone in Hd. discriminate Hd. }
  destruct (resolveAssetUri getAssetByID devicePixelRatio source)
    as [u | e3]; simpl; [ discriminate | ].
  intros X. injection X as <-. right. reflexivity.
Qed.

(** A render goes through exactly when [resolveAssetUri] answers for the
    source displayed and for [source]; the background image is then the
    displayed URI wrapped in a quoted [url(...)], and there is none when
    that URI is null or empty. *)
Theorem renderDerived_returns (state : LoadState)
  (source defaultSource : Source num) (display u : option string) :
  resolveAssetUri getAssetByID devicePixelRatio
    (selectedSource state source defaultSource) = Return display ->
  resolveAssetUri getAssetByID devicePixelRatio source = Return u ->
  exists r,
    renderDerived getAssetByID devicePixelRatio state source defaultSource =
      Return r /\
    displayImageUri r = display /\
    effectUri r = u /\
    hiddenImage r = match display with
                    | Some EmptyString => None
                    | other => other
                    end /\
    backgroundImage r =
      match hiddenImage r with
      | Some d => Some ("url(" ++ dquote ++ d ++ dquote ++ ")")
      | None => None
      end.
Proof.
  intros Hd Hu. unfold renderDerived.
  set (selected := selectedSource state source defaultSource) in *.
  rewrite Hd. simpl.
  destruct (resolveAssetDimensions getAssetByID selected) as [size | e2] eqn:Hs.
  2:{ exfalso.
      apply (resolveAssetDimensions_throw_handle getAssetByID selected) in Hs.
      destruct Hs as (handle & Hsel & Hnone & _).
      rewrite Hsel in Hd. unfold resolveAssetUri in Hd.
      rewrite Hnone in Hd. discriminate Hd. }
  simpl. rewrite Hu. simpl. eexists. split; [ reflexivity | ]. simpl.
  destruct display as [[ | c d] | ]; auto.
Qed.
End RenderFacts.

(** An unknown handle as the source of a loaded component. *)
Lemma renderDerived_throws_witness :
  resolveAssetUri Sample.registry None
    (selectedSource LOADED (SrcNumber 7%Q) SrcUndefined) =
    Throw (GenericError (assetNotFoundMessage 7%Q)) \/
  resolveAssetUri Sample.registry None (SrcNumber 7%Q) =
    Throw (GenericError (assetNotFoundMessage 7%Q)).
Proof.
  exact (renderDerived_throws Sample.registry None LOADED (SrcNumber 7%Q)
           SrcUndefined (GenericError (assetNotFoundMessage 7%Q)) eq_refl).
Defined.

Lemma renderDerived_returns_witness :
  exists r,
    renderDerived Sample.registry None LOADED (SrcString "a.png") SrcUndefined =
      Return r /\
    displayImageUri r = Some "a.png" /\
    effectUri r = Some "a.png" /\
    hiddenImage r = Some "a.png" /\
    backgroundImage r =
      match hiddenImage r with
      | Some d => Some ("url(" ++ dquote ++ d ++ dquote ++ ")")
      | None => None
      end.
Proof.
  exact (renderDerived_returns Sample.registry None LOADED (SrcString "a.png")
           SrcUndefined (Some "a.png") (Some "a.png") eq_refl eq_refl).
Defined.

(** ** warnOnce *)

Section WarnOnceFacts.
Variable production : bool.
Variable prototypeHas : string -> bool.

Lemma warnAll_cons (call : string * string) (rest : list (string * string))
  (st : WarnState) :
  warnAll production prototypeHas (call :: rest) st =
  warnAll production prototypeHas rest
    (warnOnce production prototypeHas (fst call) (snd call) st).
Proof. reflexivity. Qed.

Lemma warnOnce_development (key message : string) (st : WarnState) :
  production = false ->
  warnOnce production prototypeHas key message st =
  if isWarned prototypeHas key st then st
  else {| warnedKeys := key :: warnedKeys st;
          consoleWarnings := (consoleWarnings st ++ [message])%list |}.
Proof. intros Hdev. unfold warnOnce. rewrite Hdev. reflexivity. Qed.

Lemma warnAll_development (calls : list (string * string)) (st : WarnState) :
  production = false ->
  warnedKeys (warnAll production prototypeHas calls st) =
    (rev (map fst (firstCalls prototypeHas (warnedKeys st) calls)) ++
     warnedKeys st)%list /\
  consoleWarnings (warnAll production prototypeHas calls st) =
    (consoleWarnings st ++
     map snd (firstCalls prototypeHas (warnedKeys st) calls))%list.
Proof.
  intros Hdev. revert st.
  induction calls as [ | [key message] rest IH ]; intros st.
  - simpl. rewrite app_nil_r. auto.
  - rewrite warnAll_cons. cbn [fst snd firstCalls].
    rewrite (warnOnce_development key message st Hdev). unfold isWarned.
    destruct (existsb (String.eqb key) (warnedKeys st) || prototypeHas key).
    + apply IH.
    + destruct (IH {| warnedKeys := key :: warnedKeys st;
                      consoleWarnings := (consoleWarnings st ++ [message])%list |})
        as [Hk Hc].
      rewrite Hk, Hc. cbn [warnedKeys consoleWarnings map fst snd rev].
      rewrite <- !app_assoc. auto.
Qed.

Lemma firstCalls_fresh (calls : list (string * string)) (seen : list string) :
  NoDup (map fst (firstCalls prototypeHas seen calls)) /\
  (forall call, In call (firstCalls prototypeHas seen calls) ->
     In call calls /\ ~ In (fst call) seen /\ prototypeHas (fst call) = false).
Proof.
  revert seen. induction calls as [ | call rest IH ]; intros seen.
  - simpl. split; [ constructor | intros c [] ].
  - simpl.
    destruct (existsb (String.eqb (fst call)) seen) eqn:Hseen; simpl.
    + destruct (IH seen) as [Hn Hin]. split; [ exact Hn | ].
      intros c Hc. destruct (Hin c Hc) as (A & B & C). auto.
    + destruct (prototypeHas (fst call)) eqn:Hp.
      * destruct (IH seen) as [Hn Hin]. split; [ exact Hn | ].
        intros c Hc. destruct (Hin c Hc) as (A & B & C). auto.
      * destruct (IH (fst call :: seen)) as [Hn Hin]. split.
        -- simpl. constructor; [ | exact Hn ].
           intros Hdup. apply in_map_iff in Hdup.
           destruct Hdup as (c & Hfst & Hc).
           destruct (Hin c Hc) as (_ & B & _). apply B. left. auto.
        -- intros c [<- | Hc].
           ++ split; [ left; reflexivity | split; [ | exact Hp ] ].
              intros Hs.
              assert (X : existsb (String.eqb (fst call)) seen = true).
              { apply existsb_exists. exists (fst call).
                split; [ exact Hs | apply String.eqb_refl ]. }
              congruence.
           ++ destruct (Hin c Hc) as (A & B & C).
              split; [ right; exact A | split; [ | exact C ] ].
              intros Hs. apply B. right. exact Hs.
Qed.

(** Outside production, what a run of [warnOnce] calls prints, from a
    state where nothing was warned, is the messages of the calls that are
    the first of their key, in call order: one line per key at most, and
    none for a key the prototype of the key store already answers for.  In
    production nothing is printed and nothing is recorded. *)
Theorem warnOnce_once_per_key (calls : list (string * string)) :
  (production = false ->
   consoleWarnings (warnAll production prototypeHas calls noWarnings) =
     map snd (firstCalls prototypeHas [] calls) /\
   NoDup (map fst (firstCalls prototypeHas [] calls)) /\
   (forall call, In call (firstCalls prototypeHas [] calls) ->
      In call calls /\ prototypeHas (fst call) = false) /\
   List.length (consoleWarnings (warnAll production prototypeHas calls noWarnings))
     <= List.length calls) /\
  (production = true ->
   warnAll production prototypeHas calls noWarnings = noWarnings).
Proof.
  split.
  - intros Hdev.
    destruct (warnAll_development calls noWarnings Hdev) as [_ Hc].
    simpl in Hc. destruct (firstCalls_fresh calls []) as [Hn Hin].
    split; [ exact Hc | split; [ exact Hn | split ] ].
    + intros c Hcin. destruct (Hin c Hcin) as (A & _ & C). auto.
    + rewrite Hc, length_map.
      apply NoDup_incl_length.
      * apply (NoDup_map_inv fst). exact Hn.
      * intros c Hcin. apply (Hin c Hcin).
  - intros Hprod. unfold warnAll.
    generalize noWarnings. induction calls as [ | c rest IH ]; intros st.
    + reflexivity.
    + simpl. replace (warnOnce production prototypeHas (fst c) (snd c) st)
        with st by (unfold warnOnce; rewrite Hprod; reflexivity).
      apply IH.
Qed.

Lemma warnOnce_keeps (key key' message : string) (st : WarnState) :
  isWarned prototypeHas key st = true ->
  isWarned prototypeHas key (warnOnce production prototypeHas key' message st) = true.
Proof.
  intros Hk. unfold warnOnce.
  destruct (negb production); [ | exact Hk ].
  destruct (isWarned prototypeHas key' st); [ exact Hk | ].
  unfold isWarned in *. simpl.
  apply orb_true_iff in Hk. destruct Hk as [Hk | Hk].
  - rewrite Hk, orb_true_r. reflexivity.
  - rewrite Hk, orb_true_r. reflexivity.
Qed.

Lemma warnOnce_warned (key message : string) (st : WarnState) :
  production = false ->
  isWarned prototypeHas key (warnOnce production prototypeHas key message st) = true.
Proof.
  intros Hdev. rewrite (warnOnce_development key message st Hdev).
  destruct (isWarned prototypeHas key st) eqn:Hk; [ exact Hk | ].
  unfold isWarned. simpl. rewrite String.eqb_refl. reflexivity.
Qed.

Lemma warnOnce_again (key message message' : string) (st : WarnState) :
  isWarned prototypeHas key st = true \/ production = true ->
  warnOnce production prototypeHas key message' st = st.
Proof.
  intros [Hk | Hp]; unfold warnOnce.
  - rewrite Hk. destruct (negb production); reflexivity.
  - rewrite Hp. reflexivity.
Qed.
End WarnOnceFacts.

(** ** Non-standard style props *)

Section StylePropsFacts.
Context {num : Type} `{JsNumber num}.
Variable production : bool.
Variable prototypeHas : string -> bool.

(** The filter chain is the custom filter of the style, then the blur,
    then the reference to the tint filter, each only if it applies; and the
    reference is there exactly when [createTintColorSVG], given the tint
    color the component settles on, renders a filter, whose id it names. *)
Theorem filterList_matches_tint_filter (style : option (Style))
  (blurRadius : option num) (filterId : FilterId num)
  (tintColorProp : option string) (warned : WarnState) :
  let flatStyle := match style with
                   | Some s => s
                   | None => emptyStyle
                   end in
  let props := fst (extractNonStandardStyleProps production prototypeHas
                      style blurRadius filterId tintColorProp warned) in
  let tintColor := orString tintColorProp (sp_tintColor props) in
  filterList flatStyle blurRadius filterId tintColorProp =
    (match style_filter flatStyle with
     | Some (String _ _ as f) => [f]
     | _ => []
     end ++
     (if truthyNumber blurRadius then [blurFilter blurRadius] else []) ++
     match createTintColorSVG tintColor filterId with
     | Some svg => [("url(#" ++ tint_id svg ++ ")")%string]
     | None => []
     end)%list /\
  sp_filter props =
    match filterList flatStyle blurRadius filterId tintColorProp with
    | [] => None
    | filters => Some (join " " filters)
    end.
Proof.
  intros flatStyle props tintColor. split.
  - unfold filterList, createTintColorSVG, tintReference, tintColor.
    unfold props, extractNonStandardStyleProps. simpl.
    fold flatStyle.
    destruct (style_filter flatStyle) as [[ | c f] | ];
      destruct (truthyNumber blurRadius);
      destruct (orString tintColorProp (style_tintColor flatStyle))
        as [[ | c' t] | ];
      destruct filterId; reflexivity.
  - unfold props, extractNonStandardStyleProps. simpl. fold flatStyle.
    destruct (filterList flatStyle blurRadius filterId tintColorProp);
      reflexivity.
Qed.

(** Calling [extractNonStandardStyleProps] again with the same style
    prints nothing more: the warn state after the second call is the one
    after the first. *)
Theorem extractNonStandardStyleProps_warns_once (style : option Style)
  (blurRadius blurRadius' : option num) (filterId filterId' : FilterId num)
  (tintColorProp tintColorProp' : option string) (warned : WarnState) :
  let once := snd (extractNonStandardStyleProps production prototypeHas
                     style blurRadius filterId tintColorProp warned) in
  snd (extractNonStandardStyleProps production prototypeHas
         style blurRadius' filterId' tintColorProp' once) = once.
Proof.
  unfold extractNonStandardStyleProps. simpl.
  set (flatStyle := match style with Some s => s | None => emptyStyle end).
  destruct production eqn:Hp.
  - destruct (style_resizeMode flatStyle), (truthyString (style_tintColor flatStyle));
      unfold warnOnce; simpl; reflexivity.
  - destruct (style_resizeMode flatStyle) as [m | ];
      destruct (truthyString (style_tintColor flatStyle)).
    + rewrite (warnOnce_again false prototypeHas resizeModeWarningKey
                 resizeModeWarning resizeModeWarning).
      * apply (warnOnce_again false prototypeHas tintColorWarningKey
                 tintColorWarning tintColorWarning).
        left. apply warnOnce_warned. reflexivity.
      * left. apply warnOnce_keeps. apply warnOnce_warned. reflexivity.
    + apply (warnOnce_again false prototypeHas resizeModeWarningKey
               resizeModeWarning resizeModeWarning).
      left. apply warnOnce_warned. reflexivity.
    + apply (warnOnce_again false prototypeHas tintColorWarningKey
               tintColorWarning tintColorWarning).
      left. apply warnOnce_warned. reflexivity.
    + reflexivity.
Qed.
End StylePropsFacts.

Example extractNonStandardStyleProps_deprecated :
  extractNonStandardStyleProps false Demo.never (Some Demo.deprecatedStyle)
    (Some 2%Q) (FilterNumber 5%Q) None noWarnings =
  ({| sp_resizeMode := Some contain;
      sp_filter := Some "sepia(1) blur(2px) url(#tint-5)";
      sp_tintColor := Some "red" |},
   {| warnedKeys := [tintColorWarningKey; resizeModeWarningKey];
      consoleWarnings := [resizeModeWarning; tintColorWarning] |}).
Proof. reflexivity. Qed.

Lemma warnOnce_once_per_key_witness :
  consoleWarnings
    (warnAll false Demo.never
       [(resizeModeWarningKey, resizeModeWarning);
        (tintColorWarningKey, tintColorWarning);
        (resizeModeWarningKey, resizeModeWarning)] noWarnings) =
  [resizeModeWarning; tintColorWarning].
Proof.
  exact (proj1 (proj1 (warnOnce_once_per_key false Demo.never
           [(resizeModeWarningKey, resizeModeWarning);
            (tintColorWarningKey, tintColorWarning);
            (resizeModeWarningKey, resizeModeWarning)]) eq_refl)).
Defined.

(** ** The filter identifier of an instance *)

Lemma filterRefOf_In (instance : nat) (id : N) (refs : list (nat * N)) :
  filterRefOf instance refs = Some id -> In (instance, id) refs.
Proof.
  induction refs as [ | [i x] rest IH ]; simpl; [ discriminate | ].
  destruct (Nat.eqb_spec i instance) as [-> | Hne].
  - intros E. injection E as <-. left. reflexivity.
  - intros E. right. apply IH. exact E.
Qed.

Lemma renderFilterRef_keeps (instance other : nat) (id : N) (st : FilterIds) :
  filterRefOf other (filterRefs st) = Some id ->
  filterRefOf other (filterRefs (renderFilterRef instance st)) = Some id.
Proof.
  intros E. unfold renderFilterRef, postIncrement. simpl.
  destruct (filterRefOf instance (filterRefs st)) eqn:Ei; [ exact E | ].
  simpl. destruct (Nat.eqb_spec instance other) as [-> | Hne]; [ | exact E ].
  congruence.
Qed.

Lemma renderFilterRef_assigns (instance : nat) (st : FilterIds) :
  exists id, filterRefOf instance (filterRefs (renderFilterRef instance st)) = Some id.
Proof.
  unfold renderFilterRef, postIncrement. simpl.
  destruct (filterRefOf instance (filterRefs st)) as [id | ] eqn:Ei.
  - exists id. exact Ei.
  - exists (nextFilterId st). simpl. rewrite Nat.eqb_refl. reflexivity.
Qed.

Lemma renderFilterRefs_keeps (instance : nat) (id : N) (later : list nat)
  (st : FilterIds) :
  filterRefOf instance (filterRefs st) = Some id ->
  filterRefOf instance (filterRefs (renderFilterRefs later st)) = Some id.
Proof.
  revert st. induction later as [ | i later IH ]; intros st E.
  - exact E.
  - simpl. apply IH. apply renderFilterRef_keeps. exact E.
Qed.

(** Once an instance has its filter identifier, no later render, of this
    or of any other instance, changes it. *)
Theorem filterRef_stable (instance : nat) (id : N) (later : list nat)
  (st : FilterIds) :
  filterRefOf instance (filterRefs st) = Some id ->
  filterRefOf instance (filterRefs (renderFilterRefs later st)) = Some id.
Proof. apply renderFilterRefs_keeps. Qed.

Lemma renderFilterRef_next (instance : nat) (st : FilterIds) :
  (nextFilterId st < 2 ^ 53)%N ->
  nextFilterId (renderFilterRef instance st) = (nextFilterId st + 1)%N.
Proof.
  intros Hlt. unfold renderFilterRef, postIncrement. cbn [nextFilterId].
  apply N.ltb_lt in Hlt. rewrite Hlt. reflexivity.
Qed.

Lemma renderFilterRefs_fresh (instances : list nat) (st : FilterIds) :
  (nextFilterId st + N.of_nat (List.length instances) <= 2 ^ 53)%N ->
  (forall i id, In (i, id) (filterRefs st) -> (id < nextFilterId st)%N) ->
  NoDup (map snd (filterRefs st)) ->
  NoDup (map snd (filterRefs (renderFilterRefs instances st))).
Proof.
  revert st. induction instances as [ | i rest IH ]; intros st Hroom Hlt Hnd.
  - exact Hnd.
  - simpl renderFilterRefs. change (fold_left (fun s i => renderFilterRef i s) rest
                             (renderFilterRef i st))
      with (renderFilterRefs rest (renderFilterRef i st)).
    assert (Hnext : nextFilterId (renderFilterRef i st) = (nextFilterId st + 1)%N).
    { apply renderFilterRef_next.
      change (List.length (i :: rest)) with (S (List.length rest)) in Hroom.
      lia. }
    apply IH.
    + rewrite Hnext.
      change (List.length (i :: rest)) with (S (List.length rest)) in Hroom.
      lia.
    + intros j id Hin. rewrite Hnext.
      unfold renderFilterRef, postIncrement in Hin. simpl in Hin.
      destruct (filterRefOf i (filterRefs st)).
      * specialize (Hlt j id Hin). lia.
      * destruct Hin as [E | Hin].
        -- injection E as _ <-. lia.
        -- specialize (Hlt j id Hin). lia.
    + unfold renderFilterRef, postIncrement. simpl.
      destruct (filterRefOf i (filterRefs st)); [ exact Hnd | ].
      simpl. constructor; [ | exact Hnd ].
      intros Hin. apply in_map_iff in Hin. destruct Hin as ([j id] & E & Hin).
      simpl in E. subst id. specialize (Hlt j _ Hin). lia.
Qed.

(** Through any sequence of renders of any instances, as long as fewer
    than 2^53 renders took place, every instance rendered has a filter
    identifier and no two instances share one. *)
Theorem filterRef_unique (instances : list nat) :
  (N.of_nat (List.length instances) <= 2 ^ 53)%N ->
  let refs := filterRefs (renderFilterRefs instances noFilterIds) in
  (forall i, In i instances -> exists id, filterRefOf i refs = Some id) /\
  (forall i j id,
      filterRefOf i refs = Some id -> filterRefOf j refs = Some id -> i = j).
Proof.
  intros Hroom refs. split.
  - intros i Hin. unfold refs. clear Hroom. generalize noFilterIds.
    induction instances as [ | k rest IH ]; intros st; [ destruct Hin | ].
    simpl. destruct Hin as [-> | Hin].
    + destruct (renderFilterRef_assigns i st) as [id E].
      exists id. apply renderFilterRefs_keeps. exact E.
    + apply IH. exact Hin.
  - intros i j id Ei Ej.
    assert (Hnd : NoDup (map snd refs)).
    { apply renderFilterRefs_fresh.
      - simpl. exact Hroom.
      - intros k x [].
      - constructor. }
    apply filterRefOf_In in Ei, Ej. revert Hnd Ei Ej. clear.
    induction refs as [ | [k x] rest IH ]; simpl; [ intros _ [] | ].
    intros Hnd [Ei | Ei] [Ej | Ej].
    + congruence.
    + injection Ei as -> ->. inversion Hnd as [ | ? ? Hnot _ ]. subst.
      exfalso. apply Hnot. apply in_map_iff. exists (j, id). auto.
    + injection Ej as -> ->. inversion Hnd as [ | ? ? Hnot _ ]. subst.
      exfalso. apply Hnot. apply in_map_iff. exists (i, id). auto.
    + inversion Hnd. subst. apply IH; assumption.
Qed.

Lemma filterRef_unique_witness :
  filterRefs (renderFilterRefs [4; 9; 4] noFilterIds) = [(9, 1%N); (4, 0%N)] /\
  (forall i j id,
      filterRefOf i (filterRefs (renderFilterRefs [4; 9; 4] noFilterIds)) = Some id ->
      filterRefOf j (filterRefs (renderFilterRefs [4; 9; 4] noFilterIds)) = Some id ->
      i = j).
Proof.
  split; [ reflexivity | ].
  refine (proj2 (filterRef_unique [4; 9; 4] _)).
  vm_compute. discriminate.
Defined.

Lemma filterRef_stable_witness :
  filterRefOf 4 (filterRefs (renderFilterRefs [9; 4; 4]
                   (renderFilterRef 4 noFilterIds))) = Some 0%N.
Proof.
  exact (filterRef_stable 4 0%N [9; 4; 4] (renderFilterRef 4 noFilterIds) eq_refl).
Defined.

(** ** The load effect over a whole life *)

Lemma count_app (p : Event -> bool) (t1 t2 : list Event) :
  count p (t1 ++ t2)%list = count p t1 + count p t2.
Proof. unfold count. rewrite filter_app, length_app. reflexivity. Qed.

Lemma loaderAbort_sub (t : list Event) (p : option Pending) (r : Pending) :
  loaderAbort t p = Some r -> p = Some r.
Proof.
  revert p. induction t as [ | ev t IH ]; intros p; [ auto | ].
  unfold loaderAbort. simpl. fold (loaderAbort t). intros E.
  apply IH in E. destruct ev, p as [q | ]; try exact E; try discriminate E.
  destruct (Nat.eqb handle (pending_handle q)); [ discriminate E | exact E ].
Qed.

Lemma inFlight_loaderAbort (t : list Event) (p : option Pending) :
  inFlight (loaderAbort t p) <= inFlight p.
Proof.
  destruct (loaderAbort t p) as [r | ] eqn:E; [ | simpl; lia ].
  apply loaderAbort_sub in E. subst p. simpl. lia.
Qed.

(** A property of a world and of the calls made so far that every step
    keeps is kept by every run. *)
Lemma run_keeps (P : World -> list Event -> Prop) :
  (forall w t a, P w t -> P (fst (step w a)) (t ++ snd (step w a))%list) ->
  forall actions w t,
    P w t -> P (fst (run w actions)) (t ++ snd (run w actions))%list.
Proof.
  intros Hstep actions.
  induction actions as [ | a rest IH ]; intros w t Hw.
  - simpl. rewrite app_nil_r. exact Hw.
  - simpl. pose proof (Hstep w t a Hw) as Hs.
    destruct (step w a) as [w1 t1]. simpl in Hs.
    specialize (IH w1 _ Hs). destruct (run w1 rest) as [w2 t2]. simpl in *.
    rewrite app_assoc. exact IH.
Qed.

(** What a step does, case by case. *)
Lemma step_cases (w : World) (a : Action) :
  step w a = (w, []) \/
  (mounted w = true /\
   exists u cbs handle,
     a = Render u cbs handle /\
     step w a =
       ({| mounted := true;
           inst := match u with
                   | Some _ => {| state := LOADING; requestRef := Some handle |}
                   | None => {| state := state (inst w); requestRef := None |}
                   end;
           deps := (u, cbs);
           pending := newPending u cbs handle
                        (loaderAbort (handleEvents (requestRef (inst w)))
                           (pending w)) |},
        (handleEvents (requestRef (inst w)) ++
         match u with
         | Some u' => optionalCall (onLoadStart cbs) CallOnLoadStart ++
                      [CallLoad u' handle]
         | None => []
         end)%list)) \/
  (mounted w = true /\
   exists r e,
     pending w = Some r /\
     ((a = LoaderSuccess e /\
       step w a =
         ({| mounted := true;
             inst := {| state := LOADED; requestRef := requestRef (inst w) |};
             deps := deps w; pending := None |},
          (optionalCall (onLoad (pending_callbacks r)) (CallOnLoad e) ++
           optionalCall (onLoadEnd (pending_callbacks r)) (CallOnLoadEnd e))%list)) \/
      (a = LoaderFailure e /\
       step w a =
         ({| mounted := true;
             inst := {| state := ERRORED; requestRef := requestRef (inst w) |};
             deps := deps w; pending := None |},
          (optionalCall (onError (pending_callbacks r))
             (CallOnError (failureMessage (pending_uri r))) ++
           optionalCall (onLoadEnd (pending_callbacks r)) (CallOnLoadEnd e))%list)))) \/
  (mounted w = true /\
   a = Unmount /\
   step w a =
     ({| mounted := false;
         inst := {| state := state (inst w); requestRef := None |};
         deps := deps w;
         pending := loaderAbort (handleEvents (requestRef (inst w))) (pending w) |},
      handleEvents (requestRef (inst w)))).
Proof.
  unfold step. destruct (mounted w) eqn:Hm; simpl; [ | auto ].
  destruct a as [u cbs handle | e | e | ].
  - destruct (deps_eqb (deps w) (u, cbs)); [ auto | ].
    right. left. split; [ reflexivity | ]. exists u, cbs, handle.
    split; [ reflexivity | ].
    rewrite abortPendingRequest_spec. unfold loadEffect.
    rewrite abortPendingRequest_spec. simpl.
    fold (handleEvents (requestRef (inst w))).
    destruct u as [u' | ]; simpl.
    + reflexivity.
    + rewrite !app_nil_r. reflexivity.
  - destruct (pending w) as [r | ] eqn:Hp; [ | auto ].
    right. right. left. split; [ reflexivity | ]. exists r, e.
    split; [ reflexivity | ]. left. split; reflexivity.
  - destruct (pending w) as [r | ] eqn:Hp; [ | auto ].
    right. right. left. split; [ reflexivity | ]. exists r, e.
    split; [ reflexivity | ]. right. split; reflexivity.
  - right. right. right. split; [ reflexivity | split; [ reflexivity | ] ].
    rewrite abortPendingRequest_spec. simpl. reflexivity.
Qed.

Ltac step_case w a Hstep :=
  destruct (step_cases w a)
    as [Hstep
       | [(Hm & u & cbs & handle & -> & Hstep)
         | [(Hm & r & e & Hp & [[-> Hstep] | [-> Hstep]])
           | (Hm & -> & Hstep)]]];
  rewrite Hstep; cbn [fst snd].

Lemma step_balanced (w : World) (t : list Event) (a : Action) :
  balanced w t -> balanced (fst (step w a)) (t ++ snd (step w a))%list.
Proof.
  intros [Hbal Hun].
  step_case w a Hstep.
  - rewrite app_nil_r. split; assumption.
  - split; [ | discriminate ]. intros h. rewrite !count_app, (Hbal h).
    destruct (requestRef (inst w)) as [h0 | ], u as [u' | ],
      (onLoadStart cbs) as [f | ];
      unfold count; simpl;
      repeat match goal with
             | |- context [Nat.eqb ?x ?y] => destruct (Nat.eqb x y)
             end; simpl; lia.
  - split; [ | discriminate ]. intros h. rewrite !count_app, (Hbal h).
    destruct (onLoad (pending_callbacks r)), (onLoadEnd (pending_callbacks r));
      unfold count; simpl; lia.
  - split; [ | discriminate ]. intros h. rewrite !count_app, (Hbal h).
    destruct (onError (pending_callbacks r)), (onLoadEnd (pending_callbacks r));
      unfold count; simpl; lia.
  - split; [ | reflexivity ]. intros h. rewrite !count_app, (Hbal h).
    destruct (requestRef (inst w)) as [h0 | ]; unfold count; simpl;
      repeat match goal with
             | |- context [Nat.eqb ?x ?y] => destruct (Nat.eqb x y)
             end; simpl; lia.
Qed.


Lemma step_settledAtMostOnce (w : World) (t : list Event) (a : Action) :
  settledAtMostOnce w t ->
  settledAtMostOnce (fst (step w a)) (t ++ snd (step w a))%list.
Proof.
  intros [Hend Hset]. unfold settledAtMostOnce.
  step_case w a Hstep.
  - rewrite app_nil_r. split; assumption.
  - rewrite !count_app. cbn [pending].
    pose proof (inFlight_loaderAbort (handleEvents (requestRef (inst w)))
                  (pending w)) as Hle.
    destruct (requestRef (inst w)) as [h0 | ], u as [u' | ],
      (onLoadStart cbs) as [f | ];
      unfold count in *; simpl in *; lia.
  - rewrite !count_app. rewrite Hp in Hend, Hset.
    destruct (onLoad (pending_callbacks r)), (onLoadEnd (pending_callbacks r));
      unfold count in *; simpl in *; lia.
  - rewrite !count_app. rewrite Hp in Hend, Hset.
    destruct (onError (pending_callbacks r)), (onLoadEnd (pending_callbacks r));
      unfold count in *; simpl in *; lia.
  - rewrite !count_app. cbn [pending].
    pose proof (inFlight_loaderAbort (handleEvents (requestRef (inst w)))
                  (pending w)) as Hle.
    destruct (requestRef (inst w)) as [h0 | ];
      unfold count in *; simpl in *; lia.
Qed.

Lemma Callbacks_eqb_eq (a b : Callbacks) : Callbacks_eqb a b = true -> a = b.
Proof.
  assert (Hopt : forall x y : option nat, option_eqb Nat.eqb x y = true -> x = y).
  { intros [x | ] [y | ]; simpl; try discriminate; auto.
    intros E. apply Nat.eqb_eq in E. congruence. }
  unfold Callbacks_eqb. intros E.
  apply andb_prop in E. destruct E as [E E4].
  apply andb_prop in E. destruct E as [E E3].
  apply andb_prop in E. destruct E as [E1 E2].
  apply Hopt in E1, E2, E3, E4.
  destruct a, b. simpl in *. congruence.
Qed.

Lemma deps_changed_by_callbacks (d : option string * Callbacks)
  (u : option string) (cbs : Callbacks) :
  snd d <> cbs -> deps_eqb d (u, cbs) = false.
Proof.
  intros Hne. unfold deps_eqb. simpl.
  destruct (Callbacks_eqb (snd d) cbs) eqn:E.
  - apply Callbacks_eqb_eq in E. contradiction.
  - apply andb_false_r.
Qed.

(** A render that keeps the URI and changes a callback prop restarts the
    request: the handle held is aborted, [onLoadStart] is called again if
    given, and the same URI is loaded anew. *)
Theorem render_with_new_callback_reloads (w : World) (u : string)
  (cbs' : Callbacks) (h h' : RequestHandle) :
  mounted w = true ->
  requestRef (inst w) = Some h ->
  fst (deps w) = Some u ->
  snd (deps w) <> cbs' ->
  step w (Render (Some u) cbs' h') =
    ({| mounted := true;
        inst := {| state := LOADING; requestRef := Some h' |};
        deps := (Some u, cbs');
        pending := Some {| pending_handle := h'; pending_uri := u;
                           pending_callbacks := cbs' |} |},
     (CallAbort h :: optionalCall (onLoadStart cbs') CallOnLoadStart ++
      [CallLoad u h'])%list).
Proof.
  intros Hm Hh Hu Hc.
  pose proof (deps_changed_by_callbacks (deps w) (Some u) cbs' Hc) as Hd.
  destruct (step_cases w (Render (Some u) cbs' h'))
    as [Hstep
       | [(_ & u0 & cbs0 & h0 & Ha & Hstep)
         | [(_ & r & e & _ & [[Ha _] | [Ha _]])
           | (_ & Ha & _)]]]; try discriminate Ha.
  - exfalso. unfold step in Hstep. rewrite Hm, Hd in Hstep. simpl in Hstep.
    rewrite abortPendingRequest_spec in Hstep. unfold loadEffect in Hstep.
    rewrite abortPendingRequest_spec in Hstep. simpl in Hstep.
    injection Hstep as _ Hnil. rewrite Hh in Hnil. discriminate Hnil.
  - injection Ha as <- <- <-. rewrite Hstep, Hh. reflexivity.
Qed.

(** A render whose URI became null aborts the handle held and does nothing
    else: no load, no callback, and the load state stays what it was. *)
Theorem render_with_null_uri_aborts (w : World) (cbs' : Callbacks)
  (h h' : RequestHandle) :
  mounted w = true ->
  requestRef (inst w) = Some h ->
  fst (deps w) <> None ->
  snd (step w (Render None cbs' h')) = [CallAbort h] /\
  state (inst (fst (step w (Render None cbs' h')))) = state (inst w) /\
  requestRef (inst (fst (step w (Render None cbs' h')))) = None /\
  count isLoad (snd (step w (Render None cbs' h'))) = 0.
Proof.
  intros Hm Hh Hu.
  pose proof (deps_changed_by_uri (deps w) None cbs' Hu) as Hd.
  unfold step. rewrite Hm, Hd. simpl.
  rewrite abortPendingRequest_spec. unfold loadEffect.
  rewrite abortPendingRequest_spec. simpl. rewrite Hh. simpl. auto.
Qed.

Section LifeFacts.
Context {num : Type} `{JsNumber num}.
Variable getAssetByID : num -> option (Asset num).
Variable devicePixelRatio : option num.
Variable has : string -> bool.

Lemma mount_invariants (source : Source num) (cbs : Callbacks)
  (h0 : RequestHandle) (w0 : World) (t0 : list Event) :
  mount getAssetByID devicePixelRatio has source cbs h0 = Return (w0, t0) ->
  balanced w0 t0 /\ stateTracksLoads w0 t0 /\ settledAtMostOnce w0 t0.
Proof.
  intros Hmount. apply mount_inv in Hmount.
  destruct Hmount as (u & s0 & Hu & Hs & -> & ->).
  unfold initialState in Hs. rewrite Hu in Hs. simpl in Hs.
  unfold balanced, stateTracksLoads, settledAtMostOnce.
  destruct u as [u' | ]; cbn [inst state requestRef pending mounted newPending].
  - destruct (onLoadStart cbs); unfold count; simpl;
      (repeat split; try discriminate; try lia;
       try (intros h; destruct (Nat.eqb h0 h); simpl; lia)).
  - injection Hs as <-. unfold count. simpl.
    repeat split; try discriminate; try lia; auto.
Qed.

(** Through the whole life of a component, for every handle, the calls
    of [ImageLoader.load] that returned it are the calls of
    [ImageLoader.abort] on it plus one if [requestRef] holds it now: no
    handle is aborted that was not loaded, none is aborted twice, and
    once the component is unmounted every load has had its abort. *)
Theorem loads_balance_aborts (source : Source num) (cbs : Callbacks)
  (h0 : RequestHandle) (w0 : World) (t0 : list Event) (actions : list Action) :
  mount getAssetByID devicePixelRatio has source cbs h0 = Return (w0, t0) ->
  let w := fst (run w0 actions) in
  let t := (t0 ++ snd (run w0 actions))%list in
  (forall h, count (isLoadOf h) t =
             count (isAbortOf h) t + holds (requestRef (inst w)) h) /\
  (forall h, count (isAbortOf h) t <= count (isLoadOf h) t) /\
  (mounted w = false ->
   forall h, count (isLoadOf h) t = count (isAbortOf h) t).
Proof.
  intros Hmount w t.
  destruct (mount_invariants _ _ _ _ _ Hmount) as (Hb & _ & _).
  destruct (run_keeps balanced step_balanced actions w0 t0 Hb) as [Hbal Hun].
  fold w t in Hbal, Hun.
  split; [ exact Hbal | split ].
  - intros h. rewrite (Hbal h). lia.
  - intros Hm h. rewrite (Hbal h), (Hun Hm). simpl. lia.
Qed.


(** Through the whole life of a component, [onLoadEnd] is called at most
    once per call of [ImageLoader.load], and so are [onLoad] and [onError]
    taken together. *)
Theorem notifications_bounded_by_loads (source : Source num) (cbs : Callbacks)
  (h0 : RequestHandle) (w0 : World) (t0 : list Event) (actions : list Action) :
  mount getAssetByID devicePixelRatio has source cbs h0 = Return (w0, t0) ->
  let t := (t0 ++ snd (run w0 actions))%list in
  count isLoadEnd t <= count isLoad t /\
  count isOnLoad t + count isOnError t <= count isLoad t.
Proof.
  intros Hmount t.
  destruct (mount_invariants _ _ _ _ _ Hmount) as (_ & _ & Hs).
  destruct (run_keeps settledAtMostOnce step_settledAtMostOnce actions w0 t0 Hs)
    as [Hend Hset].
  fold t in Hend, Hset. lia.
Qed.

End LifeFacts.

Lemma render_with_new_callback_reloads_witness :
  snd (step Demo.loading (Render (Some "a.png") Demo.otherCallbacks 1)) =
    [CallAbort 0; CallOnLoadStart; CallLoad "a.png" 1].
Proof.
  refine (f_equal snd
            (render_with_new_callback_reloads Demo.loading "a.png"
               Demo.otherCallbacks 0 1 eq_refl eq_refl eq_refl _)).
  discriminate.
Defined.

Lemma render_with_null_uri_aborts_witness :
  snd (step Demo.loading (Render None Sample.allCallbacks 1)) = [CallAbort 0] /\
  state (inst (fst (step Demo.loading (Render None Sample.allCallbacks 1)))) =
    LOADING.
Proof.
  refine ((fun X => conj (proj1 X) (proj1 (proj2 X)))
            (render_with_null_uri_aborts Demo.loading Sample.allCallbacks 0 1
               eq_refl eq_refl _)).
  discriminate.
Defined.

Lemma loads_balance_aborts_witness :
  exists w0 t0,
    mount Sample.registry None Sample.cached (SrcString "a.png")
      Sample.allCallbacks 0 = Return (w0, t0) /\
    (forall h,
        count (isAbortOf h) (t0 ++ snd (run w0 Demo.actions))%list <=
        count (isLoadOf h) (t0 ++ snd (run w0 Demo.actions))%list).
Proof.
  eexists. eexists. split; [ reflexivity | ].
  exact (proj1 (proj2
    (loads_balance_aborts Sample.registry None Sample.cached
       (SrcString "a.png") Sample.allCallbacks 0 _ _ Demo.actions eq_refl))).
Defined.

Example life_trace :
  exists w0 t0,
    mount Sample.registry None Sample.cached (SrcString "a.png")
      Sample.allCallbacks 0 = Return (w0, t0) /\
    (t0 ++ snd (run w0 Demo.actions))%list =
      [CallOnLoadStart; CallLoad "a.png" 0;
       CallOnLoad 4; CallOnLoadEnd 4;
       CallAbort 0; CallOnLoadStart; CallLoad "b.png" 1;
       CallAbort 1].
Proof. eexists. eexists. split; reflexivity. Qed.


Lemma notifications_bounded_by_loads_witness :
  exists w0 t0,
    mount Sample.registry None Sample.cached (SrcString "a.png")
      Sample.allCallbacks 0 = Return (w0, t0) /\
    count isLoadEnd (t0 ++ snd (run w0 Demo.actions))%list <=
    count isLoad (t0 ++ snd (run w0 Demo.actions))%list.
Proof.
  eexists. eexists. split; [ reflexivity | ].
  exact (proj1
    (notifications_bounded_by_loads Sample.registry None Sample.cached
       (SrcString "a.png") Sample.allCallbacks 0 _ _ Demo.actions eq_refl)).
Defined.

